(** * Campus Entry Notification Survey dashboard: a shallow embedding

    The development follows the TypeScript sources of the dashboard
    (Next.js pages and chart components) and, for the Python statistics
    engine and quality scorer that the pages consume through the HTTP API,
    the written specification.

    Conventions.
    - A JavaScript [number] that is only compared (a p-value, a correlation
      coefficient) is a rational [Q]: every finite double is a rational and
      the comparisons of the source agree with the comparisons of the
      rationals.  Values arrive through JSON, which has no NaN and no
      infinities.
    - A JavaScript [number] that carries a count, an identifier or a page
      number is an integer [Z]; sums, differences and comparisons of counts
      are those of the integers, which is what the doubles give up to
      [2^53].
    - Where the source divides, multiplies by a fraction or rounds, the
      numbers are binary64 doubles ([Double.number]): an operation returns
      the double nearest to the exact result, the one with the even
      mantissa on a tie, or an infinity or NaN.
    - [undefined] / [null] is [None].
    - A string literal of the source is a [string]; the double-quote
      character is written ["034"%char]. *)

From Stdlib Require Import ZArith QArith Qround Qabs Qpower Lia List Bool.
From Stdlib Require Import String Ascii DecimalString.
From Stdlib Require Import Sorting.Sorted Permutation.
From Stdlib Require Import Reals Psatz.
Import ListNotations.

Local Open Scope string_scope.

(* ===================================================================== *)
(** * Shared JavaScript helpers                                            *)
(* ===================================================================== *)

Module JS.

(** [x < y] on numbers, as a boolean. *)
Definition ltb (x y : Q) : bool := negb (Qle_bool y x).

(** [x > y] on numbers, as a boolean. *)
Definition gtb (x y : Q) : bool := ltb y x.

(** Truthiness of a string: every string but the empty one. *)
Definition truthy (s : string) : bool := negb (String.eqb s EmptyString).

(** [n || 0] on a number: a falsy number is zero already. *)
Definition or_zero (n : Q) : Q := if Qeq_bool n 0 then 0%Q else n.

(** [n || 0] on an integer. *)
Definition or_zeroZ (n : Z) : Z := if Z.eqb n 0 then 0%Z else n.

(** [String(n)] for an integer [n]. *)
Definition string_of_Z (n : Z) : string := NilZero.string_of_int (Z.to_int n).

End JS.

(* ===================================================================== *)
(** * Numbers that are divided or rounded: binary64 doubles               *)
(* ===================================================================== *)

Module Double.

Local Open Scope Q_scope.

(** A number: a finite double, given by its exact value, an infinity or
    NaN.  A zero has no sign here: the sign of a zero shows only in a
    division by it, and the divisors of the sources are counts, sums and
    differences of counts, never the negative zero. *)
Inductive number :=
| Finite (q : Q)
| PosInfinity
| NegInfinity
| NaN.

Definition pow2 (e : Z) : Q := Qpower 2 e.

(** The exponent [k] of the binade of a positive [x]:
    [2^k <= x < 2^(k+1)]. *)
Definition ilog2 (x : Q) : Z :=
  let k := (Z.log2 (Qnum x) - Z.log2 (Zpos (Qden x)))%Z in
  if Qle_bool (pow2 k) x then k else (k - 1)%Z.

(** The nearest integer, the even one on a tie. *)
Definition roundHalfEven (x : Q) : Z :=
  let f := Qfloor x in
  match Qcompare (x - inject_Z f) (1 # 2) with
  | Lt => f
  | Gt => (f + 1)%Z
  | Eq => if Z.even f then f else (f + 1)%Z
  end.

(** The exponent of the unit in the last place of a positive [x]: 53
    binary digits, and never below the exponent of the subnormal
    numbers. *)
Definition exponent (x : Q) : Z := Z.max (ilog2 x - 52) (-1074).

(** A positive [x] rounded to a multiple of its unit in the last place,
    as a fraction in lowest terms. *)
Definition magnitude (x : Q) : Q :=
  Qred (inject_Z (roundHalfEven (x / pow2 (exponent x)))
        * pow2 (exponent x)).

(** The double nearest to [x], the one with the even mantissa on a tie,
    as if the exponent had no upper bound. *)
Definition nearest (x : Q) : Q :=
  match Qcompare x 0 with
  | Eq => 0
  | Gt => magnitude x
  | Lt => - magnitude (- x)
  end.

(** The values of the finite doubles, the upper bound of the exponent
    apart: a mantissa of at most 53 binary digits at an exponent of at
    least -1074. *)
Definition representable (d : Q) : Prop :=
  exists m e : Z,
    (Z.abs m < 2 ^ 53)%Z /\ (-1074 <= e)%Z /\ d == inject_Z m * pow2 e.

(** [y] is a double nearest to [q]. *)
Definition isNearest (q y : Q) : Prop :=
  representable y
  /\ forall d : Q, representable d -> Qabs (y - q) <= Qabs (d - q).

(** The result of an operation whose exact value is [x]: the nearest
    double, or an infinity when that is out of range. *)
Definition round (x : Q) : number :=
  let r := nearest x in
  if Qle_bool (pow2 1024) r then PosInfinity
  else if Qle_bool r (- pow2 1024) then NegInfinity
  else Finite r.

(** The number of an integer. *)
Definition ofZ (z : Z) : number := round (inject_Z z).

(** A decimal literal of the source. *)
Definition literal (q : Q) : number := round q.

Definition infinity (positive : bool) : number :=
  if positive then PosInfinity else NegInfinity.

Definition opp (a : number) : number :=
  match a with
  | Finite x => Finite (- x)
  | PosInfinity => NegInfinity
  | NegInfinity => PosInfinity
  | NaN => NaN
  end.

(** [a + b]. *)
Definition add (a b : number) : number :=
  match a, b with
  | NaN, _ | _, NaN => NaN
  | Finite x, Finite y => round (x + y)
  | PosInfinity, NegInfinity | NegInfinity, PosInfinity => NaN
  | PosInfinity, _ | _, PosInfinity => PosInfinity
  | NegInfinity, _ | _, NegInfinity => NegInfinity
  end.

(** [a - b]. *)
Definition sub (a b : number) : number := add a (opp b).

(** [a * b]. *)
Definition mul (a b : number) : number :=
  match a, b with
  | NaN, _ | _, NaN => NaN
  | Finite x, Finite y => round (x * y)
  | Finite x, PosInfinity | PosInfinity, Finite x =>
      if Qeq_bool x 0 then NaN else infinity (Qle_bool 0 x)
  | Finite x, NegInfinity | NegInfinity, Finite x =>
      if Qeq_bool x 0 then NaN else infinity (negb (Qle_bool 0 x))
  | PosInfinity, PosInfinity | NegInfinity, NegInfinity => PosInfinity
  | PosInfinity, NegInfinity | NegInfinity, PosInfinity => NegInfinity
  end.

(** [a / b]. *)
Definition div (a b : number) : number :=
  match a, b with
  | NaN, _ | _, NaN => NaN
  | Finite x, Finite y =>
      if Qeq_bool y 0 then
        if Qeq_bool x 0 then NaN else infinity (Qle_bool 0 x)
      else round (x / y)
  | Finite _, _ => Finite 0
  | PosInfinity, Finite y => infinity (Qle_bool 0 y)
  | NegInfinity, Finite y => infinity (negb (Qle_bool 0 y))
  | _, _ => NaN
  end.

(** Truthiness of a number: every number but zero and NaN. *)
Definition truthy (a : number) : bool :=
  match a with
  | Finite x => negb (Qeq_bool x 0)
  | NaN => false
  | _ => true
  end.

(** [a || b] on numbers. *)
Definition or (a b : number) : number := if truthy a then a else b.

(** The order of two numbers; none when one of them is NaN. *)
Definition compare (a b : number) : option comparison :=
  match a, b with
  | NaN, _ | _, NaN => None
  | Finite x, Finite y => Some (Qcompare x y)
  | PosInfinity, PosInfinity | NegInfinity, NegInfinity => Some Eq
  | NegInfinity, _ | _, PosInfinity => Some Lt
  | PosInfinity, _ | _, NegInfinity => Some Gt
  end.

(** [a < b] and [a <= b]. *)
Definition ltb (a b : number) : bool :=
  match compare a b with Some Lt => true | _ => false end.

Definition leb (a b : number) : bool :=
  match compare a b with Some Lt | Some Eq => true | _ => false end.

(** [Math.max(a, b)]. *)
Definition mathMax (a b : number) : number :=
  match compare a b with
  | None => NaN
  | Some Lt => b
  | Some _ => a
  end.

(** [Math.round]: the nearest integer, the larger one on a tie. *)
Definition mathRound (a : number) : number :=
  match a with
  | Finite x => Finite (inject_Z (Qfloor (x + (1 # 2))))
  | other => other
  end.

(** [Math.floor]. *)
Definition mathFloor (a : number) : number :=
  match a with
  | Finite x => Finite (inject_Z (Qfloor x))
  | other => other
  end.

(** The integer [n] for which [n / 10] is closest to [x], the larger one
    on a tie, for [x >= 0]. *)
Definition roundTenths (x : Q) : Z := Qfloor (x * 10 + (1 # 2)).

(** [x.toFixed(1)] for a finite [x] below 1e21: sign, integer part, point
    and one digit of the exact value of the double. *)
Definition fixed1 (x : Q) : string :=
  let n := roundTenths (Qabs x) in
  ((if JS.ltb x 0 then "-" else EmptyString)
   ++ JS.string_of_Z (n / 10) ++ "." ++ JS.string_of_Z (n mod 10))%string.

Definition toFixed1 (a : number) : string :=
  match a with
  | Finite x => fixed1 x
  | PosInfinity => "Infinity"
  | NegInfinity => "-Infinity"
  | NaN => "NaN"
  end.

End Double.

(* ===================================================================== *)
(** * Array operations shared by the other components                     *)
(* ===================================================================== *)

Module JSArray.

Section Elements.

Context {A : Type}.

(** [a.sort(compare)] with a comparator [(x, y) => key(y) - key(x)]: a
    stable sort by decreasing key. *)
Variable key : A -> Z.

Fixpoint insertDesc (x : A) (l : list A) : list A :=
  match l with
  | [] => [x]
  | y :: l' =>
      if (0 <? key y - key x)%Z then y :: insertDesc x l'
      else x :: y :: l'
  end.

Definition sortDesc (l : list A) : list A := fold_right insertDesc [] l.

(** [x] may stand in front of [y]. *)
Definition keyGe (x y : A) : Prop := (key y <= key x)%Z.

End Elements.

Section Writes.

Context {A : Type}.

(** [a[i] = v] for an index inside the array. *)
Fixpoint set (i : nat) (v : A) (l : list A) : list A :=
  match l, i with
  | [], _ => []
  | _ :: rest, O => v :: rest
  | x :: rest, S i' => x :: set i' v rest
  end.

(** The destructuring assignment that exchanges [a[i]] and [a[j]]; [None]
    when an index is outside the array, where the source would store
    [undefined]. *)
Definition swap (i j : nat) (l : list A) : option (list A) :=
  match nth_error l i, nth_error l j with
  | Some ai, Some aj => Some (set j ai (set i aj l))
  | _, _ => None
  end.

End Writes.

(** [Math.max(...a)] of a non-empty array of integers. *)
Definition maxOf (first : Z) (rest : list Z) : Z := fold_left Z.max rest first.

(** [Math.min(...a)] of a non-empty array of integers. *)
Definition minOf (first : Z) (rest : list Z) : Z := fold_left Z.min rest first.

(** [a.reduce((x, y) => x + y, 0)]. *)
Definition sum (a : list Z) : Z := fold_left Z.add a 0%Z.

(** [Math.round]. *)
Definition round (x : Q) : Z := Qfloor (x + (1 # 2))%Q.

(** [Math.max(...a)] and [Math.min(...a)] of a non-empty array of
    numbers. *)
Definition maxQ (first : Q) (rest : list Q) : Q :=
  fold_left (fun m v => if JS.ltb m v then v else m) rest first.

Definition minQ (first : Q) (rest : list Q) : Q :=
  fold_left (fun m v => if JS.ltb v m then v else m) rest first.

(** [a.slice(-n)]: the last [n] elements. *)
Definition lastN {A : Type} (n : nat) (a : list A) : list A :=
  skipn (List.length a - n) a.

(** [a.map((value, index) => f(value, index))]. *)
Fixpoint mapIndexed {A B : Type} (f : A -> nat -> B) (index : nat) (a : list A)
  : list B :=
  match a with
  | [] => []
  | value :: rest => f value index :: mapIndexed f (S index) rest
  end.

End JSArray.

(* ===================================================================== *)
(** * demographics/page.tsx: plain-English conclusions                     *)
(* ===================================================================== *)

Module Demographics.

Record CrossTabulation := mkCrossTabulation {
  yes_yes : Z;
  yes_no : Z;
  no_yes : Z;
  no_no : Z;
  yes_yes_percent : Q;
  yes_no_percent : Q;
  no_yes_percent : Q;
  no_no_percent : Q;
  correlation_coefficient : Q;
  chi_square : Q;
  p_value : Q
}.

(** The [type] tag of a conclusion. *)
Inductive ConclusionType :=
| strong | moderate | weak | none
| significant | not_significant
| insight.

(** The [text] of a conclusion: a literal, or the template literal of the
    practical insight, which interpolates a number in front of a literal. *)
Inductive Text :=
| Lit (s : string)
| Interpolated (n : Q) (suffix : string).

Record Conclusion := mkConclusion {
  type : ConclusionType;
  text : Text;
  detail : string
}.

(** First [if]/[else if] chain of [getStatConclusion]. *)
Definition correlationConclusion (c : Q) : Conclusion :=
  if JS.gtb c 0.7 then
    mkConclusion strong
      (Lit "There is a STRONG positive correlation between Q1 and Q2 responses.")
      "Students who oppose one policy very likely oppose the other as well."
  else if JS.gtb c 0.4 then
    mkConclusion moderate
      (Lit "There is a MODERATE positive correlation between Q1 and Q2 responses.")
      "Students tend to have similar opinions on both policies."
  else if JS.gtb c 0.2 then
    mkConclusion weak
      (Lit "There is a WEAK positive correlation between Q1 and Q2 responses.")
      "There is some relationship, but opinions on the two questions vary."
  else
    mkConclusion none
      (Lit "There is NO significant correlation between Q1 and Q2 responses.")
      "Students' opinions on the two policies are largely independent.".

(** Second chain of [getStatConclusion]. *)
Definition significanceConclusion (p : Q) : Conclusion :=
  if JS.ltb p 0.001 then
    mkConclusion significant
      (Lit "This relationship is HIGHLY statistically significant (p < 0.001).")
      "We can be very confident this pattern is real and not due to chance."
  else if JS.ltb p 0.05 then
    mkConclusion significant
      (Lit "This relationship is statistically significant (p < 0.05).")
      "The observed pattern is unlikely to be due to random chance."
  else
    mkConclusion not_significant
      (Lit "This relationship is NOT statistically significant.")
      "The observed pattern could be due to random chance.".

(** Third part of [getStatConclusion]: the practical insight. *)
Definition insightConclusions (crossTab : CrossTabulation) : list Conclusion :=
  let noNoPercent := JS.or_zero (no_no_percent crossTab) in
  if JS.gtb noNoPercent 50 then
    [ mkConclusion insight
        (Interpolated noNoPercent "% of students oppose BOTH policies.")
        "The majority of respondents are against both the parent notification and monitoring systems." ]
  else [].

(** [getStatConclusion]: [null] while the cross-tabulation is not loaded,
    otherwise the conclusions in the order they are pushed. *)
Definition getStatConclusion (crossTab : option CrossTabulation)
  : option (list Conclusion) :=
  match crossTab with
  | None => None
  | Some ct =>
      Some ([correlationConclusion (correlation_coefficient ct)]
            ++ [significanceConclusion (p_value ct)]
            ++ insightConclusions ct)%list
  end.

(** The conclusion pushed first and the one pushed second. *)
Definition reportedCorrelation (crossTab : option CrossTabulation)
  : option Conclusion :=
  match getStatConclusion crossTab with
  | Some cs => nth_error cs 0
  | None => None
  end.

Definition reportedSignificance (crossTab : option CrossTabulation)
  : option Conclusion :=
  match getStatConclusion crossTab with
  | Some cs => nth_error cs 1
  | None => None
  end.

(** What the page reports about the correlation: the type and the text of
    the first conclusion. *)
Definition reportsCorrelation (ct : CrossTabulation)
           (k : ConclusionType) (t : string) : Prop :=
  exists c, reportedCorrelation (Some ct) = Some c
            /\ type c = k /\ text c = Lit t.

(** The same for the significance: the second conclusion. *)
Definition reportsSignificance (ct : CrossTabulation)
           (k : ConclusionType) (t : string) : Prop :=
  exists c, reportedSignificance (Some ct) = Some c
            /\ type c = k /\ text c = Lit t.

End Demographics.

(* ===================================================================== *)
(** * compare/page.tsx: the comparison page                               *)
(* ===================================================================== *)

Module Compare.

Inductive GroupType := course | year.

Definition groupTypeName (t : GroupType) : string :=
  match t with course => "course" | year => "year" end.

Definition GroupType_eqb (a b : GroupType) : bool :=
  match a, b with
  | course, course | year, year => true
  | _, _ => false
  end.

(** Answer of [getAvailableGroups]. *)
Record AvailableGroups := mkAvailableGroups {
  ag_course : list string;
  ag_year : list string
}.

(** The component state: the four [useState] cells and the data of the
    [available-groups] query. *)
Record State := mkState {
  groupType : GroupType;
  groupA : string;
  groupB : string;
  shouldCompare : bool;
  availableGroups : option AvailableGroups
}.

Definition initial : State := mkState course EmptyString EmptyString false None.

(** [options]: the groups of the selected type, [[]] while loading. *)
Definition options (s : State) : list string :=
  match availableGroups s with
  | Some g => match groupType s with course => ag_course g | year => ag_year g end
  | None => []
  end.

(** The [useEffect] that sets the initial selections. *)
Definition initialSelectionsEffect (s : State) : State :=
  match availableGroups s with
  | Some g =>
      let opts := match groupType s with course => ag_course g | year => ag_year g end in
      match opts with
      | o0 :: o1 :: _ =>
          mkState (groupType s) o0 o1 (shouldCompare s) (availableGroups s)
      | _ => s
      end
  | None => s
  end.

(** [enabled] option of the comparison query. *)
Definition queryEnabled (s : State) : bool :=
  shouldCompare s && JS.truthy (groupA s) && JS.truthy (groupB s)
  && negb (String.eqb (groupA s) (groupB s)).

(** The selector sent for a group: the template literal [type:value]. *)
Definition selector (t : GroupType) (g : string) : string :=
  groupTypeName t ++ ":" ++ g.

(** The [compareGroups] call the query layer makes in a state: the query
    function runs only while the query is enabled. *)
Definition compareGroupsRequest (s : State) : option (string * string) :=
  if queryEnabled s
  then Some (selector (groupType s) (groupA s), selector (groupType s) (groupB s))
  else None.

(** [disabled] attribute of the Compare button. *)
Definition compareDisabled (s : State) : bool :=
  negb (JS.truthy (groupA s)) || negb (JS.truthy (groupB s))
  || String.eqb (groupA s) (groupB s).

Definition handleCompare (s : State) : State :=
  if JS.truthy (groupA s) && JS.truthy (groupB s)
     && negb (String.eqb (groupA s) (groupB s))
  then mkState (groupType s) (groupA s) (groupB s) true (availableGroups s)
  else s.

Definition swapGroups (s : State) : State :=
  let temp := groupA s in
  mkState (groupType s) (groupB s) temp (shouldCompare s) (availableGroups s).

(** The two group-type buttons; the effect runs again when the type
    changed, since [groupType] is one of its dependencies. *)
Definition clickGroupType (t : GroupType) (s : State) : State :=
  let s' := mkState t (groupA s) (groupB s) false (availableGroups s) in
  if GroupType_eqb t (groupType s) then s' else initialSelectionsEffect s'.

(** [onChange] of the two selects. *)
Definition selectGroupA (v : string) (s : State) : State :=
  mkState (groupType s) v (groupB s) false (availableGroups s).

Definition selectGroupB (v : string) (s : State) : State :=
  mkState (groupType s) (groupA s) v false (availableGroups s).

(** The groups query resolves; the effect runs on the new data. *)
Definition groupsLoaded (g : AvailableGroups) (s : State) : State :=
  initialSelectionsEffect
    (mkState (groupType s) (groupA s) (groupB s) (shouldCompare s) (Some g)).

Inductive Event :=
| GroupsLoaded (g : AvailableGroups)
| ClickGroupType (t : GroupType)
| SelectGroupA (v : string)
| SelectGroupB (v : string)
| SwapGroups
| ClickCompare.

Definition step (s : State) (e : Event) : State :=
  match e with
  | GroupsLoaded g => groupsLoaded g s
  | ClickGroupType t => clickGroupType t s
  | SelectGroupA v => selectGroupA v s
  | SelectGroupB v => selectGroupB v s
  | SwapGroups => swapGroups s
  | ClickCompare => handleCompare s
  end.

(** States the page can be in: the initial one and every one an event
    leads to. *)
Inductive reachable : State -> Prop :=
| reachable_initial : reachable initial
| reachable_step s e : reachable s -> reachable (step s e).

Definition run (es : list Event) : State := fold_left step es initial.

Definition getSignificanceColor (significant : bool) (pValue : Q) : string :=
  if JS.ltb pValue 0.01 then "text-emerald-400"
  else if significant then "text-blue-400"
  else "text-white/40".

(** ** Kinds of events *)

Definition isClickCompare (e : Event) : bool :=
  match e with ClickCompare => true | _ => false end.

(** The handlers that call [setShouldCompare(false)]: the two selects and
    the two group-type buttons. *)
Definition isSelectionChange (e : Event) : bool :=
  match e with
  | ClickGroupType _ | SelectGroupA _ | SelectGroupB _ => true
  | _ => false
  end.

(** A trace in which the Compare button is never clicked. *)
Definition noCompareClick (es : list Event) : bool :=
  forallb (fun e => negb (isClickCompare e)) es.

(** The request with its two groups exchanged. *)
Definition mirrored (request : option (string * string))
  : option (string * string) :=
  match request with
  | Some (a, b) => Some (b, a)
  | None => None
  end.

End Compare.

(* ===================================================================== *)
(** * explorer/page.tsx: the data explorer                                *)
(* ===================================================================== *)

Module Explorer.

Record QualityResult := mkQualityResult {
  score : Z;
  flags : list string;
  is_valid : bool
}.

Record SurveyResponse := mkSurveyResponse {
  id : Z;
  timestamp : string;
  name : string;
  roll_no : string;
  course : string;
  year : string;
  q1_parent_notification : string;
  q2_monitoring : option string;
  comments : option string;
  quality : option QualityResult
}.

Record SurveyResponseList := mkSurveyResponseList {
  total : Z;
  valid_count : Z;
  flagged_count : Z;
  responses : list SurveyResponse
}.

(** The component state that pagination and filtering use, with the data
    of the [responses] query ([None] while it is loading). *)
Record State := mkState {
  searchQuery : string;
  selectedCourses : list string;
  selectedYears : list string;
  page : Z;
  loaded : option SurveyResponseList
}.

Definition pageSize : Z := 20.

(** [responses ? Math.ceil(responses.total / pageSize) : 0]. *)
Definition totalPages (s : State) : Z :=
  match loaded s with
  | Some r => Qceiling (inject_Z (total r) / inject_Z pageSize)
  | None => 0
  end.

Definition includes (x : string) (l : list string) : bool :=
  existsb (String.eqb x) l.

(** The updater passed to [setSelectedCourses] and [setSelectedYears]. *)
Definition toggle (x : string) (prev : list string) : list string :=
  if includes x prev
  then filter (fun c => negb (String.eqb c x)) prev
  else (prev ++ [x])%list.

Definition toggleCourse (c : string) (s : State) : State :=
  mkState (searchQuery s) (toggle c (selectedCourses s)) (selectedYears s)
          1 (loaded s).

Definition toggleYear (y : string) (s : State) : State :=
  mkState (searchQuery s) (selectedCourses s) (toggle y (selectedYears s))
          1 (loaded s).

(** [onChange] of the search box. *)
Definition changeSearch (q : string) (s : State) : State :=
  mkState q (selectedCourses s) (selectedYears s) 1 (loaded s).

(** The Clear Filters button of the results bar. *)
Definition clearFilters (s : State) : State :=
  mkState EmptyString [] [] 1 (loaded s).

(** The Clear Filters action of the empty state shown in the table. *)
Definition clearFiltersEmptyState (s : State) : State :=
  mkState EmptyString [] [] (page s) (loaded s).

(** The empty state is rendered when the query has data and the page of
    responses is empty. *)
Definition emptyStateShown (s : State) : bool :=
  match loaded s with
  | Some r => Nat.eqb (List.length (responses r)) 0
  | None => false
  end.

(** The pagination bar is rendered when [totalPages > 1]. *)
Definition paginationShown (s : State) : bool := Z.ltb 1 (totalPages s).

(** Previous: [setPage((p) => Math.max(1, p - 1))]. *)
Definition previousPage (s : State) : State :=
  mkState (searchQuery s) (selectedCourses s) (selectedYears s)
          (Z.max 1 (page s - 1)) (loaded s).

(** Next: [setPage((p) => Math.min(totalPages, p + 1))]. *)
Definition nextPage (s : State) : State :=
  mkState (searchQuery s) (selectedCourses s) (selectedYears s)
          (Z.min (totalPages s) (page s + 1)) (loaded s).

(** ** CSV export *)

Definition dquote : string := String "034"%char EmptyString.
Definition newline : string := String "010"%char EmptyString.

(** The template literal that wraps a field in double quotes. *)
Definition quoted (s : string) : string := dquote ++ s ++ dquote.

(** The [replace] call with the global pattern on the double-quote
    character: every double quote becomes two. *)
Fixpoint escapeQuotes (s : string) : string :=
  match s with
  | EmptyString => EmptyString
  | String c rest =>
      if Ascii.eqb c "034"%char
      then String "034"%char (String "034"%char (escapeQuotes rest))
      else String c (escapeQuotes rest)
  end.

(** A nullable string or-ed with the empty string. *)
Definition or_empty (x : option string) : string :=
  match x with Some v => v | None => EmptyString end.

(** [r.quality?.score || 0]. *)
Definition qualityScore (r : SurveyResponse) : Z :=
  match quality r with
  | Some q => JS.or_zeroZ (score q)
  | None => 0
  end.

(** The fields of one data row, before they are joined. *)
Definition rowFields (r : SurveyResponse) : list string :=
  [ JS.string_of_Z (id r);
    quoted (name r);
    roll_no r;
    quoted (course r);
    year r;
    q1_parent_notification r;
    or_empty (q2_monitoring r);
    JS.string_of_Z (qualityScore r);
    quoted (escapeQuotes (or_empty (comments r))) ].

Definition headerFields : list string :=
  ["ID"; "Name"; "Roll No"; "Course"; "Year"; "Q1"; "Q2"; "Quality Score"; "Comment"].

Definition headerRow : string := String.concat "," headerFields.

Definition csvRow (r : SurveyResponse) : string :=
  String.concat "," (rowFields r).

(** The rows of the file, before they are joined by line feeds. *)
Definition csvRows (rs : list SurveyResponse) : list string :=
  headerRow :: map csvRow rs.

(** [exportFilteredData]: the text put in the downloaded blob, [None]
    when the handler returns early because no page is loaded. *)
Definition exportFilteredData (data : option SurveyResponseList)
  : option string :=
  match data with
  | None => None
  | Some d => Some (String.concat newline (csvRows (responses d)))
  end.

(** ** What a reader of the file sees in a field *)





(** ** Line feeds of the exported text *)

Definition is_newline (c : ascii) : bool := Ascii.eqb c "010"%char.

(** The number of line feeds of a string. *)
Fixpoint countNewlines (s : string) : nat :=
  match s with
  | EmptyString => O
  | String c rest => (if is_newline c then 1 else 0) + countNewlines rest
  end.

(** The text fields of a response as the backend sends them. *)
Definition textFields (r : SurveyResponse) : list string :=
  [ name r; roll_no r; course r; year r; q1_parent_notification r;
    or_empty (q2_monitoring r); or_empty (comments r) ].

(** ** The request parameters of the [responses] query *)

Record ResponsesParams := mkResponsesParams {
  param_courses : option (list string);
  param_years : option (list string);
  param_search_query : option string;
  param_page : Z;
  param_page_size : Z;
  param_include_flagged : bool
}.

(** The argument of [getResponses] in the query function: an empty filter is
    sent as [undefined]. *)
Definition responsesParams (s : State) : ResponsesParams :=
  mkResponsesParams
    (match selectedCourses s with [] => None | l => Some l end)
    (match selectedYears s with [] => None | l => Some l end)
    (if JS.truthy (searchQuery s) then Some (searchQuery s) else None)
    (page s) pageSize true.

(** ** The sentiment indicator and the quality pill of a row *)

Inductive Indicator := TrendingDown | TrendingUp | Minus.

(** [SentimentIndicator]: a No vote with a comment longer than 20
    characters, else a Yes vote, else neither. *)
Definition sentimentIndicator (r : SurveyResponse) : Indicator :=
  let isPositive := String.eqb (q1_parent_notification r) "Yes" in
  let isNegative :=
    String.eqb (q1_parent_notification r) "No"
    && match comments r with
       | Some c => JS.truthy c && Nat.ltb 20 (String.length c)
       | None => false
       end in
  if isNegative then TrendingDown
  else if isPositive then TrendingUp
  else Minus.

End Explorer.

(* ===================================================================== *)
(** * quality/page.tsx: the quality distribution                          *)
(* ===================================================================== *)

Module Quality.

Local Open Scope Z_scope.

Record QualityDistribution := mkQualityDistribution {
  excellent : Z;
  good : Z;
  acceptable : Z;
  poor : Z;
  flagged_breakdown : list (string * Z)
}.

(** The [percent] field holds the string of [toFixed] or the number 0. *)
Inductive Percent :=
| PercentText (s : string)
| PercentNumber (n : Z).

Record Band := mkBand {
  label : string;
  value : Z;
  color : string;
  percent : Percent
}.

(** [totalResponses]. *)
Definition totalResponses (quality : option QualityDistribution) : Z :=
  match quality with
  | Some q =>
      JS.or_zeroZ (excellent q) + JS.or_zeroZ (good q)
      + JS.or_zeroZ (acceptable q) + JS.or_zeroZ (poor q)
  | None => 0
  end.

(** [quality?.field || 0]. *)
Definition countOf (field : QualityDistribution -> Z)
           (quality : option QualityDistribution) : Z :=
  match quality with
  | Some q => JS.or_zeroZ (field q)
  | None => 0
  end.

(** The conditional expression of a [percent] field:
    [totalResponses ? (count / totalResponses * 100).toFixed(1) : 0]. *)
Definition percentOf (count totalResponses : Z) : Percent :=
  if totalResponses =? 0 then PercentNumber 0
  else PercentText
         (Double.toFixed1
            (Double.mul (Double.div (Double.ofZ count) (Double.ofZ totalResponses))
                        (Double.ofZ 100))).

Definition qualityData (quality : option QualityDistribution) : list Band :=
  let totalResponses := totalResponses quality in
  let excellentCount := countOf excellent quality in
  let goodCount := countOf good quality in
  let acceptableCount := countOf acceptable quality in
  let poorCount := countOf poor quality in
  [ mkBand "Excellent" excellentCount "#4ade80" (percentOf excellentCount totalResponses);
    mkBand "Good" goodCount "#5c9eff" (percentOf goodCount totalResponses);
    mkBand "Acceptable" acceptableCount "#fbbf24" (percentOf acceptableCount totalResponses);
    mkBand "Poor" poorCount "#f87171" (percentOf poorCount totalResponses) ].

(** Whether a string has a decimal point. *)
Fixpoint hasPoint (s : string) : bool :=
  match s with
  | EmptyString => false
  | String c rest => Ascii.eqb c "." || hasPoint rest
  end.

(** ** Issues detected *)

(** The Total Flags card: the values of [flagged_breakdown] summed. *)
Definition totalFlags (quality : option QualityDistribution) : Z :=
  match quality with
  | Some q => JSArray.sum (map snd (flagged_breakdown q))
  | None => 0
  end.

(** [flagLabels[flag] || flag]. *)
Definition flagLabel (flag : string) : string :=
  if String.eqb flag "too_short" then "Too Short"
  else if String.eqb flag "keyboard_spam" then "Keyboard Spam"
  else if String.eqb flag "all_caps" then "All Caps"
  else if String.eqb flag "minimal" then "Minimal Response"
  else if String.eqb flag "empty" then "Empty"
  else flag.

(** The rows of the Issues Detected card: the entries of
    [flagged_breakdown] sorted by decreasing count, each with its label. *)
Definition issueRows (quality : option QualityDistribution)
  : list (string * Z) :=
  match quality with
  | Some q =>
      map (fun entry => (flagLabel (fst entry), snd entry))
          (JSArray.sortDesc snd (flagged_breakdown q))
  | None => []
  end.

End Quality.

(* ===================================================================== *)
(** * components/charts/WordCloud.tsx                                     *)
(* ===================================================================== *)

Module WordCloud.

Local Open Scope Z_scope.

Record WordCloudWord := mkWord {
  word : string;
  count : Z;
  size : option Q
}.

(** An element of [processedWords]: the spread word and the three
    computed fields. *)
Record ProcessedWord := mkProcessed {
  base : WordCloudWord;
  fontSize : Double.number;
  color : option string;
  opacity : Double.number
}.

(** ** Arrays live in a store

    An array value is a reference; [sort] writes through it, the spread
    and [slice] allocate. *)
Definition Ref := nat.
Definition Store := list (list WordCloudWord).

Definition M (A : Type) : Type := Store -> A * Store.
Definition ret {A} (a : A) : M A := fun st => (a, st).
Definition bind {A B} (m : M A) (k : A -> M B) : M B :=
  fun st => let (a, st') := m st in k a st'.

Notation "x <- m ;; k" := (bind m (fun x => k))
  (at level 61, m at next level, right associativity).

Definition read (r : Ref) : M (list WordCloudWord) :=
  fun st => (nth r st [], st).

Definition alloc (a : list WordCloudWord) : M Ref :=
  fun st => (List.length st, (st ++ [a])%list).

Fixpoint update (r : Ref) (a : list WordCloudWord) (st : Store) : Store :=
  match st, r with
  | [], _ => []
  | _ :: rest, O => a :: rest
  | x :: rest, S r' => x :: update r' a rest
  end.

Definition write (r : Ref) (a : list WordCloudWord) : M unit :=
  fun st => (tt, update r a st).

(** The comparator [(a, b) => b.count - a.count]. *)
Definition compareCount (a b : WordCloudWord) : Z := count b - count a.

(** [Array.prototype.sort] is stable: an element moves behind the ones
    the comparator puts strictly first and stays in front of its equals
    that followed it. *)
Fixpoint insertSorted (x : WordCloudWord) (l : list WordCloudWord)
  : list WordCloudWord :=
  match l with
  | [] => [x]
  | y :: l' =>
      if 0 <? compareCount x y then y :: insertSorted x l'
      else x :: y :: l'
  end.

Definition sortedByCount (l : list WordCloudWord) : list WordCloudWord :=
  fold_right insertSorted [] l.

(** [[...a]]: a fresh array with the elements of [a]. *)
Definition spread (r : Ref) : M Ref :=
  a <- read r ;; alloc a.

(** [a.sort(compare)]: sorts in place and returns the same array. *)
Definition sort (r : Ref) : M Ref :=
  a <- read r ;; _ <- write r (sortedByCount a) ;; ret r.

(** [a.slice(0, end)] on the elements: a negative [end] counts from the
    end of the array. *)
Definition sliceFromStart (stop : Z) (a : list WordCloudWord)
  : list WordCloudWord :=
  if stop <? 0
  then firstn (Z.to_nat (Z.max (Z.of_nat (List.length a) + stop) 0)) a
  else firstn (Z.to_nat stop) a.

Definition slice (r : Ref) (stop : Z) : M Ref :=
  a <- read r ;; alloc (sliceFromStart stop a).

(** [maxCount - minCount || 1]. *)
Definition rangeOf (maxCount minCount : Z) : Double.number :=
  Double.or (Double.sub (Double.ofZ maxCount) (Double.ofZ minCount))
            (Double.ofZ 1).

(** [(word.count - minCount) / range]. *)
Definition normalized (w : WordCloudWord) (minCount : Z)
           (range : Double.number) : Double.number :=
  Double.div (Double.sub (Double.ofZ (count w)) (Double.ofZ minCount)) range.

(** [colors[index % colors.length]]. *)
Definition colorAt (colors : list string) (index : nat) : option string :=
  match colors with
  | [] => None
  | _ => nth_error colors (index mod List.length colors)
  end.

(** The callback of [sorted.map]. *)
Definition processWord (minFontSize maxFontSize : Z) (colors : list string)
           (minCount : Z) (range : Double.number) (index : nat)
           (w : WordCloudWord) : ProcessedWord :=
  let normalized := normalized w minCount range in
  let fontSize :=
    Double.add (Double.ofZ minFontSize)
               (Double.mul normalized
                           (Double.sub (Double.ofZ maxFontSize)
                                       (Double.ofZ minFontSize))) in
  mkProcessed w (Double.mathRound fontSize) (colorAt colors index)
              (Double.add (Double.literal 0.6)
                          (Double.mul normalized (Double.literal 0.4))).

Fixpoint mapi {A B} (f : nat -> A -> B) (i : nat) (l : list A) : list B :=
  match l with
  | [] => []
  | x :: l' => f i x :: mapi f (S i) l'
  end.

(** The body of the [useMemo] that computes [processedWords]. *)
Definition processedWords (words : option Ref)
           (maxWords minFontSize maxFontSize : Z) (colors : list string)
  : M (list ProcessedWord) :=
  match words with
  | None => ret []
  | Some words =>
      input <- read words ;;
      match input with
      | [] => ret []
      | _ =>
          copy <- spread words ;;
          inPlace <- sort copy ;;
          sortedRef <- slice inPlace maxWords ;;
          sorted <- read sortedRef ;;
          match sorted with
          | [] => ret []
          | first :: _ =>
              let maxCount := count first in
              let minCount := count (last sorted first) in
              let range := rangeOf maxCount minCount in
              ret (mapi (processWord minFontSize maxFontSize colors minCount range)
                        0 sorted)
          end
      end
  end.

(** [topWords] of [WordCloudCompact]. *)
Definition topWords (words : Ref) (maxWords : Z) : M (list WordCloudWord) :=
  copy <- spread words ;;
  inPlace <- sort copy ;;
  top <- slice inPlace maxWords ;;
  read top.

(** ** Order of the counts *)

(** [a] may stand in front of [b]: its count is not smaller. *)
Definition countGe (a b : WordCloudWord) : Prop := count b <= count a.

(** ** The shuffle of [shuffledWords] *)

(** [Math.floor(Math.random() * (i + 1))] for a draw [r] of
    [Math.random]. *)
Definition randomIndex (r : Q) (i : nat) : Double.number :=
  Double.mathFloor
    (Double.mul (Double.Finite r) (Double.ofZ (Z.of_nat (i + 1)))).

(** The array index that a number names: an integer that is not
    negative. *)
Definition arrayIndex (j : Double.number) : option nat :=
  match j with
  | Double.Finite q =>
      if Qle_bool 0 q && Qeq_bool q (inject_Z (Qfloor q))
      then Some (Z.to_nat (Qfloor q)) else None
  | _ => None
  end.

(** The loop of the shuffle from index [i] down to 1; [draw k] is the value
    of the [k]-th call of [Math.random].  [None] when an index is outside
    the array, where the source would store [undefined]. *)
Fixpoint shuffleFrom (i : nat) (draw : nat -> Q) (k : nat)
         (shuffled : list ProcessedWord) : option (list ProcessedWord) :=
  match i with
  | O => Some shuffled
  | S i' =>
      match arrayIndex (randomIndex (draw k) i) with
      | Some j =>
          match JSArray.swap i j shuffled with
          | Some next => shuffleFrom i' draw (Datatypes.S k) next
          | None => None
          end
      | None => None
      end
  end.

(** [shuffledWords]: the shuffle of a copy of [processedWords]. *)
Definition shuffledWords (draw : nat -> Q) (processedWords : list ProcessedWord)
  : option (list ProcessedWord) :=
  shuffleFrom (List.length processedWords - 1) draw 0 processedWords.

(** ** [WordCloudCompact] *)

(** The opacity of the chip at [index] among [length] chips:
    [0.5 + (length - index) / length * 0.5]. *)
Definition compactOpacity (length index : nat) : Double.number :=
  Double.add (Double.literal 0.5)
    (Double.mul
       (Double.div (Double.ofZ (Z.of_nat length - Z.of_nat index))
                   (Double.ofZ (Z.of_nat length)))
       (Double.literal 0.5)).

(** The chips: the top words with their opacities. *)
Definition compactChips (top : list WordCloudWord)
  : list (WordCloudWord * Double.number) :=
  mapi (fun index w => (w, compactOpacity (List.length top) index)) 0 top.

End WordCloud.

(* ===================================================================== *)
(** * StatisticsEngine (backend/services/confidence.py)                   *)
(* ===================================================================== *)

(** The Python engine is not among the sources; its functions are modelled
    from section 4.4 of the specification.  Counts are natural numbers, the
    statistics are real numbers, and a Python division is partial: it raises
    [ZeroDivisionError] on a zero divisor. *)

Module StatisticsEngine.

Local Open Scope R_scope.

(** The exception a Python division raises. *)
Inductive PyError := ZeroDivisionError.

(** A call returns a value or raises. *)
Inductive Result (A : Type) :=
| Ok (a : A)
| Raise (e : PyError).
Arguments Ok {A} a.
Arguments Raise {A} e.

Definition bind {A B} (m : Result A) (k : A -> Result B) : Result B :=
  match m with
  | Ok a => k a
  | Raise e => Raise e
  end.

Notation "x <- m ;; k" := (bind m (fun x => k))
  (at level 61, m at next level, right associativity).

(** Python's [x / y]. *)
Definition divide (x y : R) : Result R :=
  if Req_dec_T y 0 then Raise ZeroDivisionError else Ok (x / y).

(** [x < y] on reals, as a boolean. *)
Definition ltb (x y : R) : bool := if Rlt_dec x y then true else false.

(** Modelled from the spec: the clamp of a bound of the interval. *)
Definition clamp (lo hi x : R) : R := Rmax lo (Rmin hi x).

(** The result records have the fields of the API declarations of
    lib/api.ts ([PercentageWithCI], [ComparisonStatTest],
    [SignificanceBadge]) and of the spec. *)

Record PercentageWithCI := mkPercentageWithCI {
  percentage : R;
  margin_of_error : R;
  ci_lower : R;
  ci_upper : R;
  sample_size : nat;
  confidence_level : R
}.

Inductive EffectSize := negligible | small | medium | large.

Record ComparisonStatTest := mkComparisonStatTest {
  z_statistic : R;
  p_value : R;
  significant : bool;
  highly_significant : bool;
  difference : R;
  effect_size : EffectSize;
  cohens_h : R
}.

Record ChiSquareResult := mkChiSquareResult {
  chi_square : R;
  chi_p_value : R;
  correlation_coefficient : R
}.

Inductive Adequacy := adequacy_strong | adequacy_adequate | adequacy_weak.

Record SampleAdequacy := mkSampleAdequacy {
  adequacy : Adequacy;
  worst_case_moe_percent : R;
  can_detect_difference : R
}.

Record SignificanceBadge := mkSignificanceBadge {
  badge_label : string;
  badge_symbol : string
}.

(** Modelled from the spec: the z value of the 95% level, [z=1.96]. *)
Definition z95 : R := 196 / 100.

(** Modelled from the spec: the record of [percentage_with_ci], whose
    [ci_lower] and [ci_upper] are the percentage minus and plus the margin,
    clamped to [0,100]; the confidence level is fixed at 0.95. *)
Definition with_ci (pct moe : R) (n : nat) : PercentageWithCI :=
  mkPercentageWithCI pct moe (clamp 0 100 (pct - moe)) (clamp 0 100 (pct + moe))
                     n (95 / 100).

(** Modelled from the spec: [percentage_with_ci(count, total)] of the
    missing engine.  The percentage is [100*count/total] and 0 when
    [total] is 0; the margin is [z*sqrt(p(1-p)/n)*100]; on a zero total the
    margin is the maximal 100. *)
Definition percentage_with_ci (count total : nat) : Result PercentageWithCI :=
  if Nat.eqb total 0 then Ok (with_ci 0 100 0)
  else
    p <- divide (INR count) (INR total) ;;
    v <- divide (p * (1 - p)) (INR total) ;;
    Ok (with_ci (100 * p) (z95 * sqrt v * 100) total).

(** Modelled from the spec: the effect-size category of Cohen's h, with
    the thresholds 0.2, 0.5 and 0.8 applied to its magnitude. *)
Definition effect_size_of (h : R) : EffectSize :=
  if ltb (Rabs h) (2 / 10) then negligible
  else if ltb (Rabs h) (5 / 10) then small
  else if ltb (Rabs h) (8 / 10) then medium
  else large.

(** Modelled from the spec: the sentinel of [two_proportion_z_test] on a
    zero total, a non-significant result with no difference. *)
Definition no_comparison : ComparisonStatTest :=
  mkComparisonStatTest 0 1 false false 0 negligible 0.

Section Distributions.

(** The cumulative distribution function of the standard normal law and
    the upper tail of the chi-square law with one degree of freedom:
    library functions of the engine. *)
Variable Phi : R -> R.
Variable chi2_upper_tail : R -> R.

(** Modelled from the spec: the two-tailed p-value of a z statistic. *)
Definition two_tailed (z : R) : R := 2 * (1 - Phi (Rabs z)).

(** Modelled from the spec: [two_proportion_z_test] of the missing
    engine.  Pooled proportion, standard error, z (0 when the standard
    error is 0, significance then forced false), two-tailed p-value,
    signed difference in percentage points and Cohen's h; a zero total
    gives the non-significant sentinel. *)
Definition two_proportion_z_test (count_a total_a count_b total_b : nat)
  : Result ComparisonStatTest :=
  if Nat.eqb total_a 0 || Nat.eqb total_b 0 then Ok no_comparison
  else
    p_a <- divide (INR count_a) (INR total_a) ;;
    p_b <- divide (INR count_b) (INR total_b) ;;
    p <- divide (INR count_a + INR count_b) (INR total_a + INR total_b) ;;
    inv_a <- divide 1 (INR total_a) ;;
    inv_b <- divide 1 (INR total_b) ;;
    let se := sqrt (p * (1 - p) * (inv_a + inv_b)) in
    let diff := 100 * (p_a - p_b) in
    let h := 2 * (asin (sqrt p_a) - asin (sqrt p_b)) in
    if Req_dec_T se 0 then
      Ok (mkComparisonStatTest 0 (two_tailed 0) false false diff
                               (effect_size_of h) h)
    else
      z <- divide (p_a - p_b) se ;;
      let pv := two_tailed z in
      Ok (mkComparisonStatTest z pv (ltb pv (5 / 100)) (ltb pv (1 / 100))
                               diff (effect_size_of h) h).

(** Modelled from the spec: one term of the Pearson statistic, with the
    continuity correction of Yates when it is asked for. *)
Definition chi_term (yates : bool) (observed expected : R) : Result R :=
  let d := Rabs (observed - expected) - (if yates then 1 / 2 else 0) in
  divide (d * d) expected.

(** Modelled from the spec: [chi_square_2x2] of the missing engine.  The
    phi coefficient is zero when a marginal is zero; the statistic uses
    the correction of Yates when an expected count is below 5. *)
Definition chi_square_2x2 (yes_yes yes_no no_yes no_no : nat)
  : Result ChiSquareResult :=
  let row1 := (yes_yes + yes_no)%nat in
  let row2 := (no_yes + no_no)%nat in
  let col1 := (yes_yes + no_yes)%nat in
  let col2 := (yes_no + no_no)%nat in
  let n := (row1 + row2)%nat in
  if Nat.eqb row1 0 || Nat.eqb row2 0 || Nat.eqb col1 0 || Nat.eqb col2 0
  then Ok (mkChiSquareResult 0 1 0)
  else
    e11 <- divide (INR row1 * INR col1) (INR n) ;;
    e12 <- divide (INR row1 * INR col2) (INR n) ;;
    e21 <- divide (INR row2 * INR col1) (INR n) ;;
    e22 <- divide (INR row2 * INR col2) (INR n) ;;
    let yates := ltb e11 5 || ltb e12 5 || ltb e21 5 || ltb e22 5 in
    t11 <- chi_term yates (INR yes_yes) e11 ;;
    t12 <- chi_term yates (INR yes_no) e12 ;;
    t21 <- chi_term yates (INR no_yes) e21 ;;
    t22 <- chi_term yates (INR no_no) e22 ;;
    let chi := t11 + t12 + t21 + t22 in
    phi <- divide (INR yes_yes * INR no_no - INR yes_no * INR no_yes)
                  (sqrt (INR row1 * INR row2 * INR col1 * INR col2)) ;;
    Ok (mkChiSquareResult chi (chi2_upper_tail chi) phi).

(** The smallest difference detectable at 80% power for a sample size:
    the spec names a standard power-analysis formula without giving it. *)
Variable detectable_difference : nat -> R.

(** Modelled from the spec: the adequacy class of a worst-case margin,
    strong below 3, adequate below 5, weak otherwise. *)
Definition adequacy_of (moe : R) : Adequacy :=
  if ltb moe 3 then adequacy_strong
  else if ltb moe 5 then adequacy_adequate
  else adequacy_weak.

(** Modelled from the spec: [sample_adequacy] of the missing engine; the
    worst-case margin takes p = 0.5 and is the maximal 100 on an empty
    sample. *)
Definition sample_adequacy (sample_size population_estimate : nat)
  : Result SampleAdequacy :=
  if Nat.eqb sample_size 0
  then Ok (mkSampleAdequacy adequacy_weak 100 (detectable_difference 0))
  else
    v <- divide (25 / 100) (INR sample_size) ;;
    let moe := z95 * sqrt v * 100 in
    Ok (mkSampleAdequacy (adequacy_of moe) moe
                         (detectable_difference sample_size)).

End Distributions.

(** Modelled from the spec: [significance_badge] of the missing engine,
    the four tiers of a p-value with their symbols. *)
Definition significance_badge (p_value : Q) (significant : bool)
  : SignificanceBadge :=
  if JS.ltb p_value 0.001 then mkSignificanceBadge "highly significant" "***"
  else if JS.ltb p_value 0.01 then mkSignificanceBadge "very significant" "**"
  else if JS.ltb p_value 0.05 then mkSignificanceBadge "significant" "*"
  else mkSignificanceBadge "not significant" "ns".

End StatisticsEngine.

(* ===================================================================== *)
(** * QualityScorer (backend quality scoring)                             *)
(* ===================================================================== *)

(** The Python scorer is not among the sources; it is modelled from section
    4.1 of the specification.  The thresholds the spec leaves open and the
    keyboard-pattern detector are parameters. *)

Module QualityScorer.

Local Open Scope Z_scope.

(** Modelled from the spec: the flags of a [QualityResult]. *)
Inductive Flag := too_short | keyboard_spam | all_caps | minimal | empty | duplicate.

Definition Flag_eqb (a b : Flag) : bool :=
  match a, b with
  | too_short, too_short | keyboard_spam, keyboard_spam | all_caps, all_caps
  | minimal, minimal | empty, empty | duplicate, duplicate => true
  | _, _ => false
  end.

Record QualityResult := mkQualityResult {
  score : Z;
  flags : list Flag;
  is_valid : bool;
  needs_review : bool
}.

Definition is_space (c : ascii) : bool :=
  let n := nat_of_ascii c in
  (Nat.eqb n 32 || (Nat.leb 9 n && Nat.leb n 13))%bool.

Definition is_upper (c : ascii) : bool :=
  let n := nat_of_ascii c in (Nat.leb 65 n && Nat.leb n 90)%bool.

Definition is_lower (c : ascii) : bool :=
  let n := nat_of_ascii c in (Nat.leb 97 n && Nat.leb n 122)%bool.

Definition chars (s : string) : list ascii := list_ascii_of_string s.

(** Modelled from the spec: an empty or whitespace-only comment. *)
Definition is_blank (c : string) : bool := forallb is_space (chars c).

(** Modelled from the spec: the number of words, maximal runs of
    characters that are not white space. *)
Fixpoint count_words (inside : bool) (l : list ascii) : nat :=
  match l with
  | [] => 0
  | c :: l' =>
      if is_space c then count_words false l'
      else if inside then count_words true l'
      else S (count_words true l')
  end.

Definition word_count (c : string) : nat := count_words false (chars c).

(** Modelled from the spec: every letter of the comment is an uppercase
    letter, and there is one. *)
Definition only_uppercase (c : string) : bool :=
  (existsb is_upper (chars c) && negb (existsb is_lower (chars c)))%bool.

(** Modelled from the spec: the clamp of a score. *)
Definition clamp (lo hi x : Z) : Z := Z.max lo (Z.min hi x).

Section Scorer.

(** The minimum number of characters, the minimum number of words, the
    length above which capitals are flagged, the validity threshold and
    the detector of keyboard patterns. *)
Variable min_length : nat.
Variable min_words : nat.
Variable caps_min_length : nat.
Variable validity_threshold : Z.
Variable is_keyboard_spam : string -> bool.

(** Modelled from the spec: the penalty flags of a comment that is not
    blank, in the order the spec lists them. *)
Definition penalty_flags (c : string) : list Flag :=
  ((if Nat.ltb (String.length c) min_length then [too_short] else [])
   ++ (if is_keyboard_spam c then [keyboard_spam] else [])
   ++ (if (only_uppercase c && Nat.ltb caps_min_length (String.length c))%bool
       then [all_caps] else [])
   ++ (if Nat.ltb (word_count c) min_words then [minimal] else []))%list.

(** Modelled from the spec: the penalty of a flag. *)
Definition penalty (f : Flag) : Z :=
  match f with
  | too_short => 30
  | keyboard_spam => 50
  | all_caps => 15
  | minimal => 20
  | empty => 100
  | duplicate => 0
  end.

(** Modelled from the spec: the score before it is clamped, 100 minus
    the penalties. *)
Definition raw_score (fs : list Flag) : Z :=
  fold_left (fun acc f => acc - penalty f) fs 100.

(** Modelled from the spec: the flags that make a response invalid
    whatever its score. *)
Definition hard_fail (f : Flag) : bool :=
  match f with
  | keyboard_spam | empty | duplicate => true
  | _ => false
  end.

(** Modelled from the spec: [QualityScorer.score] of the missing scorer.
    A blank comment scores 0 with the flag [empty]; otherwise the score
    starts at 100, loses the penalties and is clamped to [0,100]. *)
Definition score_comment (c : string) : QualityResult :=
  if is_blank c then mkQualityResult 0 [empty] false false
  else
    let fs := penalty_flags c in
    let s := clamp 0 100 (raw_score fs) in
    mkQualityResult s fs
      (Z.leb validity_threshold s && negb (existsb hard_fail fs))%bool
      ((Z.leb 40 s && Z.leb s 60) || Nat.leb 2 (List.length fs))%bool.

End Scorer.

End QualityScorer.

(* ===================================================================== *)
(** * components/charts/Sparkline.tsx                                     *)
(* ===================================================================== *)

Module Sparkline.

Record Point := mkPoint { x : Q; y : Q }.

Record Dot := mkDot { dot_x : Q; dot_y : Q; dot_value : Q }.

(** A command of an SVG path with its coordinates ([ClosePath] is the
    command Z); the [d] attribute is the commands written out and joined by
    spaces. *)
Inductive Command :=
| M (px py : Q)
| L (px py : Q)
| ClosePath.

Inductive Trend := up | down | neutral.

Definition padding : Q := 2.

(** [max - min || 1]. *)
Definition rangeOf (max min : Q) : Q :=
  if Qeq_bool (max - min) 0 then 1 else max - min.

Section Chart.

Variable data : list Q.
Variable width height : Q.

(** The [points] of the [path] memo, for data of at least two values. *)
Definition pathPoints (first : Q) (rest : list Q) : list Point :=
  let min := JSArray.minQ first rest in
  let max := JSArray.maxQ first rest in
  let range := rangeOf max min in
  let chartWidth := width - padding * 2 in
  let chartHeight := height - padding * 2 in
  JSArray.mapIndexed
    (fun value index =>
       mkPoint
         (padding
          + (inject_Z (Z.of_nat index)
             / inject_Z (Z.of_nat (List.length data) - 1)) * chartWidth)
         (padding + chartHeight - ((value - min) / range) * chartHeight))
    0 data.

(** [path]: the simple path that the memo returns, empty for fewer than two
    values. *)
Definition path : list Command :=
  match data with
  | first :: (_ :: _) as rest =>
      JSArray.mapIndexed
        (fun p i => match i with O => M (x p) (y p) | S _ => L (x p) (y p) end)
        0 (pathPoints first rest)
  | _ => []
  end.

(** The [points] of the [areaPath] memo. *)
Definition areaPoints (first : Q) (rest : list Q) : list Point :=
  let min := JSArray.minQ first rest in
  let max := JSArray.maxQ first rest in
  let range := rangeOf max min in
  let chartWidth := width - padding * 2 in
  let chartHeight := height - padding * 2 in
  JSArray.mapIndexed
    (fun value index =>
       mkPoint
         (padding
          + (inject_Z (Z.of_nat index)
             / inject_Z (Z.of_nat (List.length data) - 1)) * chartWidth)
         (padding + chartHeight - ((value - min) / range) * chartHeight))
    0 data.

(** [areaPath]: down to the base line, along the points and back. *)
Definition areaPath (showArea : bool) : list Command :=
  match data with
  | first :: (_ :: _) as rest =>
      if showArea then
        match areaPoints first rest with
        | p0 :: ps =>
            ([M (x p0) (height - padding); L (x p0) (y p0)]
             ++ map (fun p => L (x p) (y p)) ps
             ++ [L (x (last ps p0)) (height - padding); ClosePath])%list
        | [] => []
        end
      else []
  | _ => []
  end.

(** [dots]. *)
Definition dots (showDots : bool) : list Dot :=
  match data with
  | first :: (_ :: _) as rest =>
      if showDots then
        let min := JSArray.minQ first rest in
        let max := JSArray.maxQ first rest in
        let range := rangeOf max min in
        let chartWidth := width - padding * 2 in
        let chartHeight := height - padding * 2 in
        JSArray.mapIndexed
          (fun value index =>
             mkDot
               (padding
                + (inject_Z (Z.of_nat index)
                   / inject_Z (Z.of_nat (List.length data) - 1)) * chartWidth)
               (padding + chartHeight - ((value - min) / range) * chartHeight)
               value)
          0 data
      else []
  | _ => []
  end.

(** [trend]: the last value against the first, with a band of five
    percent. *)
Definition trend : Trend :=
  match data with
  | first :: (_ :: _) as rest =>
      let last := List.last rest first in
      if JS.gtb last (first * 1.05) then up
      else if JS.ltb last (first * 0.95) then down
      else neutral
  | _ => neutral
  end.

End Chart.

End Sparkline.

(* ===================================================================== *)
(** * components/charts/TimelineChart.tsx and temporal/page.tsx           *)
(* ===================================================================== *)

Module Timeline.

Local Open Scope Z_scope.

Record TimelineDataPoint := mkDataPoint {
  date : string;
  daily_count : Z;
  cumulative_count : Z
}.

Record Stats := mkStats {
  maxDaily : Z;
  avgDaily : Double.number;
  peakDay : option string;
  total : Z
}.

(** [data.find((d) => d.daily_count === maxDaily)]. *)
Definition findPeak (maxDaily : Z) (data : list TimelineDataPoint)
  : option TimelineDataPoint :=
  find (fun d => daily_count d =? maxDaily) data.

(** [stats] of [TimelineChart]: [null] without data. *)
Definition stats (data : list TimelineDataPoint) : option Stats :=
  match data with
  | [] => None
  | d0 :: ds =>
      let dailyCounts := map daily_count data in
      let maxDaily := JSArray.maxOf (daily_count d0) (map daily_count ds) in
      let avgDaily :=
        Double.div (Double.ofZ (JSArray.sum dailyCounts))
                   (Double.ofZ (Z.of_nat (List.length dailyCounts))) in
      let peakDay := findPeak maxDaily data in
      Some (mkStats maxDaily (Double.mathRound avgDaily)
                    (option_map date peakDay)
                    (JS.or_zeroZ (cumulative_count (last data d0))))
  end.

Record Metrics := mkMetrics {
  totalDays : Z;
  peakDaily : Z;
  metricsAvgDaily : Double.number;
  totalResponses : Z
}.

(** [metrics] of the temporal page; [cumulative_data] is [None] while the
    query has no data. *)
Definition metrics (cumulative_data : option (list TimelineDataPoint)) : Metrics :=
  match cumulative_data with
  | Some ((d0 :: ds) as data) =>
      let dailyCounts := map daily_count data in
      let totalDays := Z.of_nat (List.length data) in
      let peakDaily := JSArray.maxOf (daily_count d0) (map daily_count ds) in
      let avgDaily :=
        Double.mathRound
          (Double.div (Double.ofZ (JSArray.sum dailyCounts))
                      (Double.ofZ totalDays)) in
      mkMetrics totalDays peakDaily avgDaily
                (JS.or_zeroZ (cumulative_count (last data d0)))
  | _ => mkMetrics 0 0 (Double.Finite 0) 0
  end.

(** ** Peak hours *)

(** An entry of [hourly_distribution] after [parseInt] of its key; [None]
    is NaN. *)
Record HourCount := mkHourCount { hour : option Z; count : Z }.

Record PeakHoursAnalysis := mkPeakHoursAnalysis {
  peakHours : list HourCount;
  quietHours : nat;
  isDayPerson : bool;
  dayActivity : Z;
  nightActivity : Z
}.

Section PeakHours.

(** [parseInt] on the keys of the distribution. *)
Variable parseInt : string -> option Z.

Definition isDayHour (key : string) : bool :=
  match parseInt key with
  | Some h => (6 <=? h) && (h <? 18)
  | None => false
  end.

Definition isNightHour (key : string) : bool :=
  match parseInt key with
  | Some h => (h <? 6) || (18 <=? h)
  | None => false
  end.

(** [peakHoursAnalysis]; the entries are [Object.entries] of the
    distribution, [None] when there is none. *)
Definition peakHoursAnalysis (hourly_distribution : option (list (string * Z)))
  : option PeakHoursAnalysis :=
  match hourly_distribution with
  | None => None
  | Some entries =>
      let hours :=
        JSArray.sortDesc count
          (map (fun e => mkHourCount (parseInt (fst e)) (snd e)) entries) in
      let peakHours := firstn 3 hours in
      let quietHours := List.length (filter (fun h => count h =? 0) hours) in
      let dayActivity :=
        JSArray.sum (map snd (filter (fun e => isDayHour (fst e)) entries)) in
      let nightActivity :=
        JSArray.sum (map snd (filter (fun e => isNightHour (fst e)) entries)) in
      Some (mkPeakHoursAnalysis peakHours quietHours
                                (nightActivity <? dayActivity)
                                dayActivity nightActivity)
  end.

End PeakHours.

End Timeline.

(* ===================================================================== *)
(** * components/ui/Toast.tsx                                             *)
(* ===================================================================== *)

Module Toasts.

Local Open Scope Z_scope.

Inductive ToastType := success | error | warning | info.

Record Toast := mkToast {
  id : string;
  type : ToastType;
  message : string;
  description : option string;
  duration : option Z
}.

(** A toast before it gets its identifier. *)
Record NewToast := mkNewToast {
  new_type : ToastType;
  new_message : string;
  new_description : option string;
  new_duration : option Z
}.

(** The updater of [addToast]; [newId] is the identifier made from the
    clock and [Math.random]. *)
Definition addToast (newId : string) (toast : NewToast) (prev : list Toast)
  : list Toast :=
  JSArray.lastN 5
    (prev ++ [mkToast newId (new_type toast) (new_message toast)
                      (new_description toast) (new_duration toast)])%list.

(** The updater of [removeToast]. *)
Definition removeToast (toastId : string) (prev : list Toast) : list Toast :=
  filter (fun t => negb (String.eqb (id t) toastId)) prev.

(** The four shorthands. *)
Definition successToast (message : string) (description : option string) : NewToast :=
  mkNewToast success message description None.

Definition errorToast (message : string) (description : option string) : NewToast :=
  mkNewToast error message description (Some 7000).

Definition warningToast (message : string) (description : option string) : NewToast :=
  mkNewToast warning message description None.

Definition infoToast (message : string) (description : option string) : NewToast :=
  mkNewToast info message description None.

(** [toast.duration || 5000]. *)
Definition effectiveDuration (t : Toast) : Z :=
  match duration t with
  | Some d => if d =? 0 then 5000 else d
  | None => 5000
  end.

(** [Math.max(0, 100 - (elapsed / duration) * 100)]. *)
Definition remaining (elapsed duration : Z) : Double.number :=
  Double.mathMax (Double.ofZ 0)
    (Double.sub (Double.ofZ 100)
       (Double.mul (Double.div (Double.ofZ elapsed) (Double.ofZ duration))
                   (Double.ofZ 100))).

(** The tick of the interval: the toast is removed once
    [remaining <= 0]. *)
Definition expired (t : Toast) (elapsed : Z) : bool :=
  Double.leb (remaining elapsed (effectiveDuration t)) (Double.ofZ 0).

Inductive Event :=
| Add (newId : string) (toast : NewToast)
| Remove (toastId : string).

Definition step (toasts : list Toast) (e : Event) : list Toast :=
  match e with
  | Add newId toast => addToast newId toast toasts
  | Remove toastId => removeToast toastId toasts
  end.

Definition run (es : list Event) : list Toast := fold_left step es [].

End Toasts.

(* ===================================================================== *)
(** * components/charts/ConcernBar.tsx                                    *)
(* ===================================================================== *)

Module ConcernBar.

Local Open Scope Z_scope.

Record ConcernData := mkConcernData {
  concern_id : string;
  concern_name : string;
  count : Z;
  percentage : Q;
  color : string
}.

(** [Math.max(...data.map((d) => d.count))]: minus infinity for no data. *)
Definition maxCount (data : list ConcernData) : option Z :=
  match data with
  | [] => None
  | d :: ds => Some (JSArray.maxOf (count d) (map count ds))
  end.

(** The width of the bar of an item, in percent:
    [(item.count / maxCount) * 100]. *)
Definition barWidth (maxCount : Z) (item : ConcernData) : Double.number :=
  Double.mul (Double.div (Double.ofZ (count item)) (Double.ofZ maxCount))
             (Double.ofZ 100).

(** The widths of the bars, in the order of the data. *)
Definition barWidths (data : list ConcernData) : list Double.number :=
  match maxCount data with
  | Some m => map (barWidth m) data
  | None => []
  end.

End ConcernBar.

(* ===================================================================== *)
(** * components/ErrorBoundary.tsx                                        *)
(* ===================================================================== *)

Module ErrorBoundary.

Record State := mkState {
  hasError : bool;
  error : option string;
  errorInfo : option string
}.

(** The state set by the constructor. *)
Definition initial : State := mkState false None None.

(** [getDerivedStateFromError] merged into the state. *)
Definition getDerivedStateFromError (err : string) (s : State) : State :=
  mkState true (Some err) (errorInfo s).

(** [componentDidCatch]: [setState({ errorInfo })]. *)
Definition componentDidCatch (info : string) (s : State) : State :=
  mkState (hasError s) (error s) (Some info).

Definition handleReset (s : State) : State := mkState false None None.

(** What [render] returns. *)
Inductive Rendered := Children | CustomFallback | DefaultErrorUI.

Definition render (hasFallback : bool) (s : State) : Rendered :=
  if hasError s then
    if hasFallback then CustomFallback else DefaultErrorUI
  else Children.

(** A child throws: React calls the two methods one after the other. *)
Inductive Event :=
| ChildThrows (err info : string)
| TryAgain.

Definition step (s : State) (e : Event) : State :=
  match e with
  | ChildThrows err info => componentDidCatch info (getDerivedStateFromError err s)
  | TryAgain => handleReset s
  end.

Definition run (es : list Event) : State := fold_left step es initial.

End ErrorBoundary.

(* ===================================================================== *)
(** * Properties                                                           *)
(* ===================================================================== *)

(** ** Comparisons of numbers *)

Lemma ltb_lt (x y : Q) : JS.ltb x y = true <-> (x < y)%Q.
Proof.
  unfold JS.ltb. rewrite negb_true_iff.
  split; intro H.
  - apply Qnot_le_lt. intro Hle. apply Qle_bool_iff in Hle. congruence.
  - destruct (Qle_bool y x) eqn:E; [|reflexivity].
    apply Qle_bool_iff in E. exfalso. exact (Qlt_not_le _ _ H E).
Qed.

Lemma ltb_ge (x y : Q) : JS.ltb x y = false <-> (y <= x)%Q.
Proof.
  unfold JS.ltb. rewrite negb_false_iff. apply Qle_bool_iff.
Qed.

Lemma gtb_gt (x y : Q) : JS.gtb x y = true <-> (y < x)%Q.
Proof. apply ltb_lt. Qed.

Lemma gtb_le (x y : Q) : JS.gtb x y = false <-> (x <= y)%Q.
Proof. apply ltb_ge. Qed.


(** Case analysis on a comparison of the source, keeping the order fact. *)
Ltac case_ltb x y :=
  let E := fresh "E" in
  destruct (JS.ltb x y) eqn:E;
  [ apply ltb_lt in E | apply ltb_ge in E ].

Ltac case_gtb x y :=
  let E := fresh "E" in
  destruct (JS.gtb x y) eqn:E;
  [ apply gtb_gt in E | apply gtb_le in E ].

(** Closes a goal whose hypotheses order a number against two constants in
    contradictory ways. *)
Ltac order_clash :=
  exfalso;
  match goal with
  | H1 : (?a < ?x)%Q, H2 : (?x <= ?b)%Q |- _ =>
      let K := fresh in
      assert (K : (a < b)%Q) by (eapply Qlt_le_trans; eassumption);
      revert K; clear; intro K; vm_compute in K; discriminate K
  | H1 : (?a <= ?x)%Q, H2 : (?x < ?b)%Q |- _ =>
      let K := fresh in
      assert (K : (a < b)%Q) by (eapply Qle_lt_trans; eassumption);
      revert K; clear; intro K; vm_compute in K; discriminate K
  | H1 : (?a < ?x)%Q, H2 : (?x < ?b)%Q |- _ =>
      let K := fresh in
      assert (K : (a < b)%Q) by (eapply Qlt_trans; eassumption);
      revert K; clear; intro K; vm_compute in K; discriminate K
  end.

(** ** Doubles *)

Section DoubleFacts.

Import Double.
Local Open Scope Q_scope.

Lemma pow2_pos (e : Z) : 0 < pow2 e.
Proof. apply Qpower_0_lt. reflexivity. Qed.

Lemma pow2_add (a b : Z) : pow2 (a + b) == pow2 a * pow2 b.
Proof. apply Qpower_plus. discriminate. Qed.

Lemma pow2_sub (a b : Z) : pow2 (a - b) == pow2 a / pow2 b.
Proof. apply Qpower_minus. discriminate. Qed.

Lemma pow2_le (a b : Z) : (a <= b)%Z -> pow2 a <= pow2 b.
Proof. intro H. apply Qpower_le_compat_l; [exact H|discriminate]. Qed.

Lemma pow2_lt (a b : Z) : (a < b)%Z -> pow2 a < pow2 b.
Proof. intro H. apply Qpower_lt_compat_l; [exact H|reflexivity]. Qed.

Lemma pow2_Z (a : Z) : (0 <= a)%Z -> pow2 a == inject_Z (2 ^ a).
Proof. intro H. unfold pow2. now rewrite Zpower_Qpower. Qed.

Lemma pow2_succ (a : Z) : pow2 (a + 1) == 2 * pow2 a.
Proof. rewrite pow2_add. change (pow2 1) with 2. ring. Qed.

Lemma pow2_pred (a : Z) : pow2 (a - 1) == pow2 a / 2.
Proof. rewrite pow2_sub. change (pow2 1) with 2. reflexivity. Qed.

Lemma inject_Z_nonzero (z : Z) : z <> 0%Z -> ~ inject_Z z == 0.
Proof.
  intros H E. apply H. unfold Qeq in E. cbn in E. lia.
Qed.

(** [ilog2 x] is the exponent of the binade of a positive [x]. *)
Lemma ilog2_spec (x : Q) :
  0 < x -> pow2 (ilog2 x) <= x /\ x < pow2 (ilog2 x + 1).
Proof.
  intro Hx. destruct x as [n d].
  assert (Hn : (0 < n)%Z).
  { unfold Qlt in Hx. cbn in Hx. lia. }
  unfold ilog2. cbn [Qnum Qden].
  set (a := Z.log2 n). set (b := Z.log2 (Z.pos d)).
  pose proof (Z.log2_spec n Hn) as [Ha1 Ha2]. fold a in Ha1, Ha2.
  pose proof (Z.log2_spec (Z.pos d) eq_refl) as [Hb1 Hb2]. fold b in Hb1, Hb2.
  assert (Ha0 : (0 <= a)%Z) by apply Z.log2_nonneg.
  assert (Hb0 : (0 <= b)%Z) by apply Z.log2_nonneg.
  rewrite Z.pow_succ_r in Ha2, Hb2 by assumption.
  assert (HA : pow2 a == inject_Z (2 ^ a)) by now apply pow2_Z.
  assert (HB : pow2 b == inject_Z (2 ^ b)) by now apply pow2_Z.
  assert (Hx' : n # d == inject_Z n / inject_Z (Z.pos d)) by apply Qmake_Qdiv.
  set (A := (2 ^ a)%Z) in *. set (B := (2 ^ b)%Z) in *.
  assert (HAp : (0 < A)%Z) by (subst A; apply Z.pow_pos_nonneg; lia).
  assert (HBp : (0 < B)%Z) by (subst B; apply Z.pow_pos_nonneg; lia).
  assert (Hk : pow2 (a - b) == inject_Z A / inject_Z B).
  { rewrite pow2_sub, HA, HB. reflexivity. }
  assert (Hlow : pow2 (a - b - 1) <= n # d).
  { rewrite pow2_pred, Hk, Hx'.
    assert (K : inject_Z A / inject_Z B / 2
                == inject_Z (A * Z.pos d) / inject_Z (2 * B * Z.pos d)).
    { rewrite !inject_Z_mult. field. split.
      - apply inject_Z_nonzero; lia.
      - apply inject_Z_nonzero; lia. }
    assert (K2 : inject_Z n / inject_Z (Z.pos d)
                 == inject_Z (2 * B * n) / inject_Z (2 * B * Z.pos d)).
    { rewrite !inject_Z_mult. field. split.
      - apply inject_Z_nonzero; lia.
      - apply inject_Z_nonzero; lia. }
    rewrite K, K2. unfold Qdiv. apply Qmult_le_compat_r.
    - rewrite <- Zle_Qle. nia.
    - apply Qlt_le_weak, Qinv_lt_0_compat. rewrite <- (Zlt_Qlt 0). nia. }
  assert (Hhigh : n # d < pow2 (a - b + 1)).
  { rewrite pow2_succ, Hk, Hx'.
    assert (K : 2 * (inject_Z A / inject_Z B)
                == inject_Z (2 * A * Z.pos d) / inject_Z (B * Z.pos d)).
    { rewrite !inject_Z_mult. field. split.
      - apply inject_Z_nonzero; lia.
      - apply inject_Z_nonzero; lia. }
    assert (K2 : inject_Z n / inject_Z (Z.pos d)
                 == inject_Z (B * n) / inject_Z (B * Z.pos d)).
    { rewrite !inject_Z_mult. field. split.
      - apply inject_Z_nonzero; lia.
      - apply inject_Z_nonzero; lia. }
    rewrite K, K2. unfold Qdiv. apply Qmult_lt_compat_r.
    - apply Qinv_lt_0_compat. rewrite <- (Zlt_Qlt 0). nia.
    - rewrite <- Zlt_Qlt. nia. }
  destruct (Qle_bool (pow2 (a - b)) (n # d)) eqn:E.
  - apply Qle_bool_iff in E. split; [exact E|exact Hhigh].
  - split; [exact Hlow|].
    replace (a - b - 1 + 1)%Z with (a - b)%Z by lia.
    apply Qnot_le_lt. intro H. apply Qle_bool_iff in H. congruence.
Qed.

Lemma ilog2_unique (x : Q) (k : Z) :
  pow2 k <= x -> x < pow2 (k + 1) -> ilog2 x = k.
Proof.
  intros H1 H2.
  assert (Hx : 0 < x) by (pose proof (pow2_pos k); lra).
  destruct (ilog2_spec x Hx) as [H3 H4].
  destruct (Z.lt_trichotomy (ilog2 x) k) as [L|[E|L]]; [|exact E|].
  - assert (pow2 (ilog2 x + 1) <= pow2 k) by (apply pow2_le; lia). lra.
  - assert (pow2 (k + 1) <= pow2 (ilog2 x)) by (apply pow2_le; lia). lra.
Qed.

Lemma ilog2_proper (x y : Q) : 0 < x -> x == y -> ilog2 x = ilog2 y.
Proof.
  intros Hx E. destruct (ilog2_spec x Hx) as [H1 H2].
  symmetry. apply ilog2_unique; rewrite <- E; assumption.
Qed.

Lemma ilog2_mono (x y : Q) : 0 < x -> x <= y -> (ilog2 x <= ilog2 y)%Z.
Proof.
  intros Hx Hxy.
  destruct (ilog2_spec x Hx) as [H1 _].
  destruct (ilog2_spec y ltac:(lra)) as [_ H4].
  destruct (Z_le_gt_dec (ilog2 x) (ilog2 y)) as [L|G]; [exact L|].
  assert (pow2 (ilog2 y + 1) <= pow2 (ilog2 x)) by (apply pow2_le; lia). lra.
Qed.

(** *** Rounding to the nearest integer, ties to even *)

Lemma roundHalfEven_proper (x y : Q) :
  x == y -> roundHalfEven x = roundHalfEven y.
Proof.
  intro E. unfold roundHalfEven. cbv zeta.
  rewrite (Qfloor_comp x y E).
  assert (K : x - inject_Z (Qfloor y) == y - inject_Z (Qfloor y))
    by (rewrite E; reflexivity).
  now rewrite (Qcompare_comp _ _ K (1 # 2) (1 # 2) (Qeq_refl _)).
Qed.

Lemma roundHalfEven_cases (x : Q) :
  let f := Qfloor x in
  (roundHalfEven x = f /\ x - inject_Z f <= 1 # 2
   /\ (x - inject_Z f == 1 # 2 -> Z.even f = true))
  \/ (roundHalfEven x = (f + 1)%Z /\ 1 # 2 <= x - inject_Z f
      /\ (x - inject_Z f == 1 # 2 -> Z.even f = false)).
Proof.
  intro f. unfold roundHalfEven. fold f.
  destruct (Qcompare (x - inject_Z f) (1 # 2)) eqn:E.
  - apply Qeq_alt in E. destruct (Z.even f) eqn:Ev.
    + left. split; [reflexivity|]. split; [lra|]. intros _. reflexivity.
    + right. split; [reflexivity|]. split; [lra|]. intros _. reflexivity.
  - apply Qlt_alt in E. left. split; [reflexivity|]. split; [lra|].
    intro K. lra.
  - apply Qgt_alt in E. right. split; [reflexivity|]. split; [lra|].
    intro K. lra.
Qed.

Lemma floor_bounds (x : Q) :
  inject_Z (Qfloor x) <= x /\ x < inject_Z (Qfloor x) + 1.
Proof.
  split; [apply Qfloor_le|].
  pose proof (Qlt_floor x) as H. rewrite inject_Z_plus in H. exact H.
Qed.

Lemma roundHalfEven_close (x : Q) :
  - (1 # 2) <= inject_Z (roundHalfEven x) - x <= 1 # 2.
Proof.
  pose proof (floor_bounds x) as [H1 H2].
  destruct (roundHalfEven_cases x) as [(E & H & _)|(E & H & _)];
    rewrite E; [|rewrite inject_Z_plus; change (inject_Z 1) with 1]; lra.
Qed.

Lemma roundHalfEven_Z (z : Z) : roundHalfEven (inject_Z z) = z.
Proof.
  unfold roundHalfEven. rewrite Qfloor_Z.
  assert (E : inject_Z z - inject_Z z == 0) by ring.
  assert (K : Qcompare (inject_Z z - inject_Z z) (1 # 2) = Lt).
  { apply Qlt_alt. rewrite E. reflexivity. }
  now rewrite K.
Qed.

Lemma roundHalfEven_mono (x y : Q) :
  x <= y -> (roundHalfEven x <= roundHalfEven y)%Z.
Proof.
  intro Hxy.
  pose proof (floor_bounds x) as [Hx1 Hx2].
  pose proof (floor_bounds y) as [Hy1 Hy2].
  assert (Hf : (Qfloor x <= Qfloor y)%Z) by now apply Qfloor_resp_le.
  destruct (roundHalfEven_cases x) as [(Ex & Hx & Tx)|(Ex & Hx & Tx)];
    destruct (roundHalfEven_cases y) as [(Ey & Hy & Ty)|(Ey & Hy & Ty)];
    rewrite Ex, Ey; try lia.
  destruct (Z.eq_dec (Qfloor x) (Qfloor y)) as [E|N]; [|lia].
  exfalso. rewrite E in *.
  assert (Hxh : x - inject_Z (Qfloor y) == 1 # 2) by lra.
  assert (Hyh : y - inject_Z (Qfloor y) == 1 # 2) by lra.
  specialize (Tx Hxh). specialize (Ty Hyh). congruence.
Qed.

(** No integer is closer to [x] than [roundHalfEven x]. *)
Lemma roundHalfEven_nearest (x : Q) (z : Z) :
  Qabs (inject_Z (roundHalfEven x) - x) <= Qabs (inject_Z z - x).
Proof.
  pose proof (roundHalfEven_close x) as [H1 H2].
  set (r := roundHalfEven x) in *.
  apply Qabs_Qle_condition. 
  destruct (Z.lt_trichotomy z r) as [L|[E|L]].
  - assert (K : inject_Z z + 1 <= inject_Z r).
    { change 1 with (inject_Z 1). rewrite <- inject_Z_plus, <- Zle_Qle. lia. }
    rewrite (Qabs_neg (inject_Z z - x)) by lra. lra.
  - subst z. split.
    + pose proof (Qabs_nonneg (inject_Z r - x)). 
      pose proof (Qle_Qabs (- (inject_Z r - x))) as K.
      rewrite Qabs_opp in K. lra.
    + apply Qle_Qabs.
  - assert (K : inject_Z r + 1 <= inject_Z z).
    { change 1 with (inject_Z 1). rewrite <- inject_Z_plus, <- Zle_Qle. lia. }
    rewrite (Qabs_pos (inject_Z z - x)) by lra. lra.
Qed.

(** On a tie the even neighbour is taken. *)
Lemma roundHalfEven_tie (x : Q) :
  Qabs (inject_Z (roundHalfEven x) - x) == 1 # 2 ->
  Z.even (roundHalfEven x) = true.
Proof.
  intro T.
  pose proof (floor_bounds x) as [H1 H2].
  destruct (roundHalfEven_cases x) as [(E & H & Tie)|(E & H & Tie)];
    rewrite E in *.
  - apply Tie. rewrite Qabs_neg in T by lra. lra.
  - rewrite inject_Z_plus in T. change (inject_Z 1) with 1 in T.
    rewrite Qabs_pos in T by lra.
    rewrite Z.even_add. rewrite Tie by lra. reflexivity.
Qed.

(** *** The magnitude of a rounded positive number *)

Lemma magnitude_eq (x : Q) :
  magnitude x
  == inject_Z (roundHalfEven (x / pow2 (exponent x))) * pow2 (exponent x).
Proof. unfold magnitude. apply Qred_correct. Qed.

Lemma exponent_proper (x y : Q) : 0 < x -> x == y -> exponent x = exponent y.
Proof.
  intros Hx E. unfold exponent. now rewrite (ilog2_proper x y Hx E).
Qed.

Lemma magnitude_proper (x y : Q) :
  0 < x -> x == y -> magnitude x == magnitude y.
Proof.
  intros Hx E. rewrite !magnitude_eq.
  rewrite (exponent_proper x y Hx E).
  rewrite (roundHalfEven_proper (x / pow2 (exponent y)) (y / pow2 (exponent y))).
  - reflexivity.
  - now rewrite E.
Qed.

Lemma exponent_bounds (x : Q) :
  0 < x ->
  (-1074 <= exponent x)%Z
  /\ x < pow2 (exponent x + 53)
  /\ ((-1074 < exponent x)%Z -> pow2 (exponent x + 52) <= x).
Proof.
  intro Hx. destruct (ilog2_spec x Hx) as [H1 H2].
  unfold exponent. split; [lia|]. split.
  - eapply Qlt_le_trans; [exact H2|]. apply pow2_le. lia.
  - intro H.
    replace (Z.max (ilog2 x - 52) (-1074) + 52)%Z with (ilog2 x) by lia.
    exact H1.
Qed.

(** The scaled number [x / 2^e] and its bounds. *)
Lemma scaled_bounds (x : Q) :
  0 < x ->
  let t := x / pow2 (exponent x) in
  x == t * pow2 (exponent x)
  /\ 0 < t
  /\ t < inject_Z (2 ^ 53)
  /\ ((-1074 < exponent x)%Z -> inject_Z (2 ^ 52) <= t).
Proof.
  intros Hx t.
  destruct (exponent_bounds x Hx) as (_ & Hhi & Hlo).
  pose proof (pow2_pos (exponent x)) as Hp.
  rewrite pow2_add in Hhi. rewrite pow2_add in Hlo.
  rewrite (pow2_Z 53) in Hhi by lia. rewrite (pow2_Z 52) in Hlo by lia.
  set (p := pow2 (exponent x)) in *.
  assert (Ex : x == t * p).
  { subst t. field. lra. }
  split; [exact Ex|].
  split; [subst t; apply Qlt_shift_div_l; lra|].
  split.
  - subst t. apply Qlt_shift_div_r; [exact Hp|]. lra.
  - intro H. subst t. apply Qle_shift_div_l; [exact Hp|].
    specialize (Hlo H). lra.
Qed.

Lemma mantissa_bounds (x : Q) :
  0 < x ->
  let m := roundHalfEven (x / pow2 (exponent x)) in
  (0 <= m <= 2 ^ 53)%Z
  /\ ((-1074 < exponent x)%Z -> (2 ^ 52 <= m)%Z).
Proof.
  intros Hx m.
  destruct (scaled_bounds x Hx) as (_ & H0 & Hhi & Hlo).
  split; [split|].
  - rewrite <- (roundHalfEven_Z 0). apply roundHalfEven_mono.
    change (inject_Z 0) with 0. lra.
  - rewrite <- (roundHalfEven_Z (2 ^ 53)). apply roundHalfEven_mono. lra.
  - intro H. rewrite <- (roundHalfEven_Z (2 ^ 52)).
    apply roundHalfEven_mono. now apply Hlo.
Qed.

Lemma magnitude_nonneg (x : Q) : 0 < x -> 0 <= magnitude x.
Proof.
  intro Hx. destruct (mantissa_bounds x Hx) as [[H _] _].
  rewrite magnitude_eq. apply Qmult_le_0_compat.
  - now rewrite <- (Zle_Qle 0).
  - apply Qlt_le_weak, pow2_pos.
Qed.

Lemma magnitude_upper (x : Q) :
  0 < x -> magnitude x <= pow2 (exponent x + 53).
Proof.
  intro Hx. destruct (mantissa_bounds x Hx) as [[_ H] _].
  rewrite magnitude_eq. rewrite pow2_add, (pow2_Z 53) by lia.
  rewrite (Qmult_comm (pow2 (exponent x))).
  apply Qmult_le_compat_r; [now rewrite <- Zle_Qle|].
  apply Qlt_le_weak, pow2_pos.
Qed.

Lemma magnitude_lower (x : Q) :
  0 < x -> (-1074 < exponent x)%Z -> pow2 (exponent x + 52) <= magnitude x.
Proof.
  intros Hx He. destruct (mantissa_bounds x Hx) as [_ H].
  rewrite magnitude_eq. rewrite pow2_add, (pow2_Z 52) by lia.
  rewrite (Qmult_comm (pow2 (exponent x))).
  apply Qmult_le_compat_r; [rewrite <- Zle_Qle; now apply H|].
  apply Qlt_le_weak, pow2_pos.
Qed.

(** Rounding moves a positive number by at most half a unit of its last
    place. *)
Lemma magnitude_close (x : Q) :
  0 < x -> Qabs (magnitude x - x) <= pow2 (exponent x) / 2.
Proof.
  intro Hx.
  destruct (scaled_bounds x Hx) as (Ex & _).
  pose proof (pow2_pos (exponent x)) as Hp.
  pose proof (roundHalfEven_close (x / pow2 (exponent x))) as [H1 H2].
  rewrite magnitude_eq.
  set (t := x / pow2 (exponent x)) in *.
  set (p := pow2 (exponent x)) in *.
  set (m := inject_Z (roundHalfEven t)) in *.
  apply Qabs_Qle_condition. clearbody m t p. rewrite Ex.
  split.
  - assert (K : 0 <= (m - t + (1 # 2)) * p) by (apply Qmult_le_0_compat; lra).
    assert (E : (m - t + (1 # 2)) * p == m * p - t * p + p / 2) by field.
    lra.
  - assert (K : 0 <= ((1 # 2) - (m - t)) * p) by (apply Qmult_le_0_compat; lra).
    assert (E : ((1 # 2) - (m - t)) * p == p / 2 - (m * p - t * p)) by field.
    lra.
Qed.

Lemma magnitude_mono (x y : Q) :
  0 < x -> x <= y -> magnitude x <= magnitude y.
Proof.
  intros Hx Hxy.
  assert (Hy : 0 < y) by lra.
  assert (He : (exponent x <= exponent y)%Z).
  { unfold exponent. pose proof (ilog2_mono x y Hx Hxy). lia. }
  destruct (Z.eq_dec (exponent x) (exponent y)) as [E|N].
  - rewrite !magnitude_eq, E.
    apply Qmult_le_compat_r; [|apply Qlt_le_weak, pow2_pos].
    rewrite <- Zle_Qle. apply roundHalfEven_mono.
    unfold Qdiv. apply Qmult_le_compat_r; [exact Hxy|].
    apply Qlt_le_weak, Qinv_lt_0_compat, pow2_pos.
  - destruct (exponent_bounds x Hx) as (Hmin & _).
    eapply Qle_trans; [now apply magnitude_upper|].
    eapply Qle_trans; [|apply magnitude_lower; [exact Hy|lia]].
    apply pow2_le. lia.
Qed.

(** *** The nearest double *)

Lemma nearest_cases (x : Q) :
  (x == 0 /\ nearest x = 0)
  \/ (0 < x /\ nearest x = magnitude x)
  \/ (x < 0 /\ nearest x = - magnitude (- x)).
Proof.
  unfold nearest. destruct (Qcompare_spec x 0) as [E|L|G].
  - left. now split.
  - right. right. now split.
  - right. left. now split.
Qed.

Lemma nearest_pos (x : Q) : 0 < x -> nearest x = magnitude x.
Proof.
  intro H. destruct (nearest_cases x) as [[E _]|[[_ E]|[L _]]];
    [lra|exact E|lra].
Qed.

Lemma nearest_neg (x : Q) : x < 0 -> nearest x = - magnitude (- x).
Proof.
  intro H. destruct (nearest_cases x) as [[E _]|[[L _]|[_ E]]];
    [lra|lra|exact E].
Qed.

Lemma nearest_zero (x : Q) : x == 0 -> nearest x = 0.
Proof.
  intro H. destruct (nearest_cases x) as [[_ E]|[[L _]|[L _]]];
    [exact E|lra|lra].
Qed.

Lemma nearest_proper (x y : Q) : x == y -> nearest x == nearest y.
Proof.
  intro E. destruct (nearest_cases x) as [[Hx Ex]|[[Hx Ex]|[Hx Ex]]].
  - rewrite Ex, (nearest_zero y) by lra. reflexivity.
  - rewrite Ex, (nearest_pos y) by lra. now apply magnitude_proper.
  - rewrite Ex, (nearest_neg y) by lra.
    rewrite (magnitude_proper (- x) (- y)); [reflexivity|lra|lra].
Qed.

Lemma nearest_opp (x : Q) : nearest (- x) == - nearest x.
Proof.
  destruct (nearest_cases x) as [[Hx Ex]|[[Hx Ex]|[Hx Ex]]]; rewrite Ex.
  - rewrite nearest_zero by lra. reflexivity.
  - rewrite nearest_neg by lra.
    rewrite (magnitude_proper (- - x) x); [reflexivity|lra|ring].
  - rewrite nearest_pos by lra. ring.
Qed.

Lemma nearest_nonneg (x : Q) : 0 <= x -> 0 <= nearest x.
Proof.
  intro H. destruct (nearest_cases x) as [[Hx Ex]|[[Hx Ex]|[Hx Ex]]];
    rewrite Ex; [lra| now apply magnitude_nonneg | lra].
Qed.

Lemma nearest_nonpos (x : Q) : x <= 0 -> nearest x <= 0.
Proof.
  intro H. destruct (nearest_cases x) as [[Hx Ex]|[[Hx Ex]|[Hx Ex]]];
    rewrite Ex; [lra|lra|].
  pose proof (magnitude_nonneg (- x)). lra.
Qed.

(** Rounding keeps the order. *)
Lemma nearest_mono (x y : Q) : x <= y -> nearest x <= nearest y.
Proof.
  intro Hxy.
  destruct (Qlt_le_dec 0 x) as [Hx|Hx].
  - rewrite (nearest_pos x), (nearest_pos y) by lra.
    now apply magnitude_mono.
  - destruct (Qlt_le_dec y 0) as [Hy|Hy].
    + rewrite (nearest_neg x), (nearest_neg y) by lra.
      pose proof (magnitude_mono (- y) (- x)). lra.
    + pose proof (nearest_nonpos x Hx). pose proof (nearest_nonneg y Hy). lra.
Qed.

(** *** Representable numbers *)

Lemma representable_proper (x y : Q) :
  x == y -> representable x -> representable y.
Proof.
  intros E (m & e & Hm & He & Hd). exists m, e.
  split; [exact Hm|]. split; [exact He|]. now rewrite <- E.
Qed.

Lemma representable_opp (d : Q) : representable d -> representable (- d).
Proof.
  intros (m & e & Hm & He & Hd). exists (- m)%Z, e.
  split; [lia|]. split; [exact He|].
  rewrite Hd, inject_Z_opp. ring.
Qed.

Lemma representable_Z (z : Z) :
  (Z.abs z <= 2 ^ 53)%Z -> representable (inject_Z z).
Proof.
  intro H.
  destruct (Z.eq_dec (Z.abs z) (2 ^ 53)) as [E|N].
  - exists (z / 2)%Z, 1%Z. split; [|split; [lia|]].
    + assert (z = 2 ^ 53 \/ z = - 2 ^ 53)%Z as [->| ->] by lia; reflexivity.
    + assert (z = 2 ^ 53 \/ z = - 2 ^ 53)%Z as [->| ->] by lia; reflexivity.
  - exists z, 0%Z. split; [lia|]. split; [lia|].
    change (pow2 0) with 1. ring.
Qed.

Lemma magnitude_representable (x : Q) : 0 < x -> representable (magnitude x).
Proof.
  intro Hx.
  destruct (mantissa_bounds x Hx) as [[H0 H53] _].
  destruct (exponent_bounds x Hx) as (He & _).
  apply (representable_proper _ _ (Qeq_sym _ _ (magnitude_eq x))).
  set (m := roundHalfEven (x / pow2 (exponent x))) in *.
  destruct (Z.eq_dec m (2 ^ 53)) as [E|N].
  - exists (2 ^ 52)%Z, (exponent x + 1)%Z.
    split; [reflexivity|]. split; [lia|].
    rewrite E, pow2_succ. 
    change (inject_Z (2 ^ 53)) with (2 * inject_Z (2 ^ 52)). ring.
  - exists m, (exponent x). split; [lia|]. split; [exact He|reflexivity].
Qed.

Lemma nearest_representable (x : Q) : representable (nearest x).
Proof.
  destruct (nearest_cases x) as [[Hx Ex]|[[Hx Ex]|[Hx Ex]]]; rewrite Ex.
  - exists 0%Z, 0%Z. split; [reflexivity|]. split; [lia|reflexivity].
  - now apply magnitude_representable.
  - apply representable_opp, magnitude_representable. lra.
Qed.

(** A multiple of [2^e'] is a multiple of every smaller power. *)
Lemma multiple_of_smaller (m e e' : Z) :
  (e <= e')%Z ->
  inject_Z m * pow2 e' == inject_Z (m * 2 ^ (e' - e)) * pow2 e.
Proof.
  intro H. rewrite inject_Z_mult, <- (pow2_Z (e' - e)) by lia.
  rewrite <- Qmult_assoc, <- pow2_add.
  now replace (e' - e + e)%Z with e' by lia.
Qed.

(** The exponent of a positive representable number is at most the
    exponent it is written with. *)
Lemma representable_exponent (d : Q) (m e : Z) :
  0 < d -> (Z.abs m < 2 ^ 53)%Z -> (-1074 <= e)%Z ->
  d == inject_Z m * pow2 e -> (exponent d <= e)%Z.
Proof.
  intros Hd Hm He E.
  destruct (ilog2_spec d Hd) as [H1 _].
  pose proof (pow2_pos e) as Hp.
  assert (Hlt : d < pow2 (e + 53)).
  { rewrite E, pow2_add, (pow2_Z 53), (Qmult_comm (pow2 e)) by lia.
    apply Qmult_lt_compat_r; [exact Hp|]. rewrite <- Zlt_Qlt. lia. }
  unfold exponent.
  destruct (Z_le_gt_dec (ilog2 d - 52) e) as [L|G]; [lia|].
  assert (pow2 (e + 53) <= pow2 (ilog2 d)) by (apply pow2_le; lia). lra.
Qed.

Lemma magnitude_of_multiple (d : Q) (z : Z) :
  d == inject_Z z * pow2 (exponent d) -> magnitude d == d.
Proof.
  intro E. rewrite magnitude_eq.
  pose proof (pow2_pos (exponent d)) as Hp.
  rewrite (roundHalfEven_proper _ (inject_Z z)).
  - rewrite roundHalfEven_Z. now rewrite <- E.
  - rewrite E at 1. field. lra.
Qed.

Lemma magnitude_fixed (d : Q) : 0 < d -> representable d -> magnitude d == d.
Proof.
  intros Hd (m & e & Hm & He & E).
  apply (magnitude_of_multiple d (m * 2 ^ (e - exponent d))).
  rewrite <- multiple_of_smaller; [exact E|].
  now apply (representable_exponent d m e).
Qed.

(** Rounding leaves a representable number as it is. *)
Lemma nearest_fixed (d : Q) : representable d -> nearest d == d.
Proof.
  intro H. destruct (nearest_cases d) as [[Hx Ex]|[[Hx Ex]|[Hx Ex]]];
    rewrite Ex.
  - now rewrite Hx.
  - now apply magnitude_fixed.
  - rewrite magnitude_fixed; [ring|lra|now apply representable_opp].
Qed.

Lemma nearest_Z (z : Z) :
  (Z.abs z <= 2 ^ 53)%Z -> nearest (inject_Z z) == inject_Z z.
Proof. intro H. now apply nearest_fixed, representable_Z. Qed.

(** No multiple of the unit in the last place is closer. *)
Lemma magnitude_optimal_multiple (x : Q) (z : Z) :
  0 < x ->
  Qabs (magnitude x - x) <= Qabs (inject_Z z * pow2 (exponent x) - x).
Proof.
  intro Hx.
  destruct (scaled_bounds x Hx) as (Ex & _).
  pose proof (pow2_pos (exponent x)) as Hp.
  pose proof (roundHalfEven_nearest (x / pow2 (exponent x)) z) as H.
  rewrite magnitude_eq.
  set (t := x / pow2 (exponent x)) in *.
  set (p := pow2 (exponent x)) in *.
  set (m := inject_Z (roundHalfEven t)) in *.
  clearbody m t p.
  assert (E1 : m * p - x == (m - t) * p) by (rewrite Ex; ring).
  assert (E2 : inject_Z z * p - x == (inject_Z z - t) * p) by (rewrite Ex; ring).
  rewrite E1, E2, !Qabs_Qmult, (Qabs_pos p) by lra.
  apply Qmult_le_compat_r; [exact H|lra].
Qed.

Lemma magnitude_optimal (x d : Q) :
  0 < x -> representable d -> Qabs (magnitude x - x) <= Qabs (d - x).
Proof.
  intros Hx (m & e & Hm & He & E).
  destruct (Z_le_gt_dec (exponent x) e) as [L|G].
  - rewrite E, (multiple_of_smaller m (exponent x) e L).
    now apply magnitude_optimal_multiple.
  - destruct (exponent_bounds x Hx) as (Hmin & _ & Hlo).
    specialize (Hlo ltac:(lia)).
    pose proof (pow2_pos e) as Hp.
    assert (Hd : d < pow2 (exponent x + 52)).
    { eapply Qlt_le_trans; [|apply (pow2_le (e + 53)); lia].
      rewrite E, pow2_add, (pow2_Z 53), (Qmult_comm (pow2 e)) by lia.
      apply Qmult_lt_compat_r; [exact Hp|]. rewrite <- Zlt_Qlt. lia. }
    pose proof (magnitude_optimal_multiple x (2 ^ 52) Hx) as H.
    rewrite <- (pow2_Z 52), <- pow2_add in H by lia.
    replace (52 + exponent x)%Z with (exponent x + 52)%Z in H by lia.
    eapply Qle_trans; [exact H|].
    rewrite (Qabs_neg (pow2 (exponent x + 52) - x)) by lra.
    rewrite (Qabs_neg (d - x)) by lra. lra.
Qed.

(** No double is closer to [x] than [nearest x]. *)
Lemma nearest_optimal (x d : Q) :
  representable d -> Qabs (nearest x - x) <= Qabs (d - x).
Proof.
  intro H. destruct (nearest_cases x) as [[Hx Ex]|[[Hx Ex]|[Hx Ex]]];
    rewrite Ex.
  - assert (E : 0 - x == 0) by lra. rewrite E. apply Qabs_nonneg.
  - now apply magnitude_optimal.
  - assert (E1 : - magnitude (- x) - x == - (magnitude (- x) - - x)) by ring.
    assert (E2 : d - x == - (- d - - x)) by ring.
    rewrite E1, E2, !Qabs_opp.
    apply magnitude_optimal; [lra|now apply representable_opp].
Qed.

(** Rounding a number of the normal range moves it by at most the
    fraction [2^-53] of its size. *)
Lemma nearest_relative_error (x : Q) :
  pow2 (-1022) <= Qabs x -> Qabs (nearest x - x) <= Qabs x * pow2 (-53).
Proof.
  assert (Hpos : forall y, pow2 (-1022) <= y ->
                           Qabs (magnitude y - y) <= y * pow2 (-53)).
  { intros y Hy.
    assert (H0 : 0 < y) by (pose proof (pow2_pos (-1022)); lra).
    eapply Qle_trans; [now apply magnitude_close|].
    destruct (ilog2_spec y H0) as [H1 H2].
    assert (Hk : (-1022 <= ilog2 y)%Z).
    { destruct (Z_le_gt_dec (-1022) (ilog2 y)) as [L|G]; [exact L|].
      assert (pow2 (ilog2 y + 1) <= pow2 (-1022)) by (apply pow2_le; lia).
      lra. }
    unfold exponent. rewrite Z.max_l by lia.
    rewrite <- pow2_pred.
    replace (ilog2 y - 52 - 1)%Z with (ilog2 y + -53)%Z by lia.
    rewrite pow2_add. apply Qmult_le_compat_r; [exact H1|].
    apply Qlt_le_weak, pow2_pos. }
  intro H. destruct (Qlt_le_dec x 0) as [L|G].
  - rewrite (Qabs_neg x) in * by lra. rewrite nearest_neg by exact L.
    assert (E : - magnitude (- x) - x == - (magnitude (- x) - - x)) by ring.
    rewrite E, Qabs_opp. now apply Hpos.
  - rewrite (Qabs_pos x) in * by lra.
    assert (H0 : 0 < x) by (pose proof (pow2_pos (-1022)); lra).
    rewrite nearest_pos by exact H0. now apply Hpos.
Qed.

(** On a tie between two doubles the one with the even mantissa is
    taken. *)
Lemma magnitude_tie (x : Q) :
  0 < x ->
  Qabs (magnitude x - x) == pow2 (exponent x) / 2 ->
  Z.even (roundHalfEven (x / pow2 (exponent x))) = true.
Proof.
  intros Hx T. apply roundHalfEven_tie.
  destruct (scaled_bounds x Hx) as (Ex & _).
  pose proof (pow2_pos (exponent x)) as Hp.
  rewrite magnitude_eq in T.
  set (t := x / pow2 (exponent x)) in *.
  set (p := pow2 (exponent x)) in *.
  set (m := inject_Z (roundHalfEven t)) in *.
  clearbody m t p.
  assert (E1 : m * p - x == (m - t) * p) by (rewrite Ex; ring).
  rewrite E1, Qabs_Qmult, (Qabs_pos p) in T by lra.
  assert (K : Qabs (m - t) * p == (1 # 2) * p) by (rewrite T; field).
  apply Qmult_inj_r in K; [exact K|lra].
Qed.

Lemma nearest_isNearest (x : Q) : isNearest x (nearest x).
Proof.
  split; [apply nearest_representable|].
  intros d Hd. now apply nearest_optimal.
Qed.

(** *** Operations that stay in range *)

Lemma round_finite (x : Q) :
  - pow2 1024 < nearest x -> nearest x < pow2 1024 ->
  round x = Finite (nearest x).
Proof.
  intros Hlo Hhi. unfold round. cbv zeta.
  destruct (Qle_bool (pow2 1024) (nearest x)) eqn:E1.
  { apply Qle_bool_iff in E1. lra. }
  destruct (Qle_bool (nearest x) (- pow2 1024)) eqn:E2.
  { apply Qle_bool_iff in E2. lra. }
  reflexivity.
Qed.

Lemma safe_below_overflow (z : Z) :
  (Z.abs z <= 2 ^ 53)%Z ->
  - pow2 1024 < inject_Z z /\ inject_Z z < pow2 1024.
Proof.
  intro H.
  assert (K : pow2 53 < pow2 1024) by (apply pow2_lt; lia).
  rewrite (pow2_Z 53) in K by lia.
  assert (H1 : inject_Z z <= inject_Z (2 ^ 53)) by (rewrite <- Zle_Qle; lia).
  assert (H2 : inject_Z (- 2 ^ 53) <= inject_Z z) by (rewrite <- Zle_Qle; lia).
  rewrite inject_Z_opp in H2. lra.
Qed.

(** A number between two safe integers is rounded to a number between
    them. *)
Lemma nearest_between (lo hi : Z) (x : Q) :
  (Z.abs lo <= 2 ^ 53)%Z -> (Z.abs hi <= 2 ^ 53)%Z ->
  inject_Z lo <= x -> x <= inject_Z hi ->
  inject_Z lo <= nearest x <= inject_Z hi.
Proof.
  intros Hlo Hhi H1 H2. split.
  - rewrite <- (nearest_Z lo Hlo). now apply nearest_mono.
  - rewrite <- (nearest_Z hi Hhi). now apply nearest_mono.
Qed.

Lemma round_between (lo hi : Z) (x : Q) :
  (Z.abs lo <= 2 ^ 53)%Z -> (Z.abs hi <= 2 ^ 53)%Z ->
  inject_Z lo <= x -> x <= inject_Z hi ->
  round x = Finite (nearest x).
Proof.
  intros Hlo Hhi H1 H2.
  destruct (nearest_between lo hi x Hlo Hhi H1 H2) as [K1 K2].
  destruct (safe_below_overflow lo Hlo) as [L1 _].
  destruct (safe_below_overflow hi Hhi) as [_ L2].
  apply round_finite; lra.
Qed.

Lemma ofZ_safe (z : Z) :
  (Z.abs z <= 2 ^ 53)%Z -> ofZ z = Finite (nearest (inject_Z z)).
Proof.
  intro H. unfold ofZ. apply (round_between z z); [exact H|exact H|lra|lra].
Qed.


Lemma ofZ_exact (z : Z) :
  (Z.abs z <= 2 ^ 53)%Z ->
  exists q : Q, ofZ z = Finite q /\ q == inject_Z z.
Proof.
  intro H. exists (nearest (inject_Z z)).
  split; [now apply ofZ_safe|now apply nearest_Z].
Qed.

Lemma add_between (lo hi : Z) (x y : Q) :
  (Z.abs lo <= 2 ^ 53)%Z -> (Z.abs hi <= 2 ^ 53)%Z ->
  inject_Z lo <= x + y -> x + y <= inject_Z hi ->
  exists z : Q,
    add (Finite x) (Finite y) = Finite z
    /\ z == nearest (x + y) /\ inject_Z lo <= z <= inject_Z hi.
Proof.
  intros Hlo Hhi H1 H2. exists (nearest (x + y)).
  split; [now apply (round_between lo hi)|].
  split; [reflexivity|now apply nearest_between].
Qed.

Lemma sub_between (lo hi : Z) (x y : Q) :
  (Z.abs lo <= 2 ^ 53)%Z -> (Z.abs hi <= 2 ^ 53)%Z ->
  inject_Z lo <= x - y -> x - y <= inject_Z hi ->
  exists z : Q,
    sub (Finite x) (Finite y) = Finite z
    /\ z == nearest (x - y) /\ inject_Z lo <= z <= inject_Z hi.
Proof.
  intros Hlo Hhi H1 H2. exists (nearest (x + - y)).
  split; [now apply (round_between lo hi)|].
  split; [reflexivity|now apply nearest_between].
Qed.

Lemma mul_between (lo hi : Z) (x y : Q) :
  (Z.abs lo <= 2 ^ 53)%Z -> (Z.abs hi <= 2 ^ 53)%Z ->
  inject_Z lo <= x * y -> x * y <= inject_Z hi ->
  exists z : Q,
    mul (Finite x) (Finite y) = Finite z
    /\ z == nearest (x * y) /\ inject_Z lo <= z <= inject_Z hi.
Proof.
  intros Hlo Hhi H1 H2. exists (nearest (x * y)).
  split; [now apply (round_between lo hi)|].
  split; [reflexivity|now apply nearest_between].
Qed.

Lemma div_between (lo hi : Z) (x y : Q) :
  (Z.abs lo <= 2 ^ 53)%Z -> (Z.abs hi <= 2 ^ 53)%Z ->
  ~ y == 0 ->
  inject_Z lo <= x / y -> x / y <= inject_Z hi ->
  exists z : Q,
    div (Finite x) (Finite y) = Finite z
    /\ z == nearest (x / y) /\ inject_Z lo <= z <= inject_Z hi.
Proof.
  intros Hlo Hhi Hy H1 H2. exists (nearest (x / y)).
  split.
  - unfold div. destruct (Qeq_bool y 0) eqn:E.
    + apply Qeq_bool_iff in E. contradiction.
    + now apply (round_between lo hi).
  - split; [reflexivity|now apply nearest_between].
Qed.

(** The difference of two safe integers whose difference is safe is
    exact. *)
Lemma sub_ofZ (a b : Z) :
  (Z.abs a <= 2 ^ 53)%Z -> (Z.abs b <= 2 ^ 53)%Z ->
  (Z.abs (a - b) <= 2 ^ 53)%Z ->
  exists q : Q,
    sub (ofZ a) (ofZ b) = Finite q /\ q == inject_Z (a - b).
Proof.
  intros Ha Hb Hab.
  destruct (ofZ_exact a Ha) as (qa & Ea & Ka).
  destruct (ofZ_exact b Hb) as (qb & Eb & Kb).
  rewrite Ea, Eb.
  assert (E : qa - qb == inject_Z (a - b)).
  { rewrite Ka, Kb. unfold Z.sub. rewrite inject_Z_plus, inject_Z_opp. ring. }
  destruct (sub_between (a - b) (a - b) qa qb Hab Hab) as (z & Ez & Kz & _);
    [rewrite E; apply Qle_refl|rewrite E; apply Qle_refl|].
  exists z. split; [exact Ez|].
  rewrite Kz, (nearest_proper _ _ E). now apply nearest_Z.
Qed.

(** [Math.round] of a number between two integers lies between them. *)
Lemma mathRound_between (lo hi : Z) (x : Q) :
  inject_Z lo <= x -> x <= inject_Z hi ->
  (lo <= Qfloor (x + (1 # 2)) <= hi)%Z.
Proof.
  intros Hlo Hhi. split.
  - rewrite <- (Qfloor_Z lo). apply Qfloor_resp_le. lra.
  - pose proof (Qfloor_le (x + (1 # 2))) as H.
    assert (K : inject_Z (Qfloor (x + (1 # 2))) < inject_Z (hi + 1)).
    { rewrite inject_Z_plus. change (inject_Z 1) with 1. lra. }
    rewrite <- Zlt_Qlt in K. lia.
Qed.

End DoubleFacts.

#[global] Instance nearest_Proper : Proper (Qeq ==> Qeq) Double.nearest.
Proof. intros x y E. now apply nearest_proper. Qed.

Section DemographicsFacts.

Import Demographics.

Lemma reportedCorrelation_some (ct : CrossTabulation) :
  reportedCorrelation (Some ct)
  = Some (correlationConclusion (correlation_coefficient ct)).
Proof. reflexivity. Qed.

Lemma reportedSignificance_some (ct : CrossTabulation) :
  reportedSignificance (Some ct)
  = Some (significanceConclusion (p_value ct)).
Proof. reflexivity. Qed.

Lemma correlationConclusion_cases (c : Q) :
  ((0.7 < c)%Q /\ type (correlationConclusion c) = strong)
  \/ ((0.4 < c <= 0.7)%Q /\ type (correlationConclusion c) = moderate)
  \/ ((0.2 < c <= 0.4)%Q /\ type (correlationConclusion c) = weak)
  \/ ((c <= 0.2)%Q /\ type (correlationConclusion c) = none).
Proof.
  unfold correlationConclusion.
  case_gtb c 0.7%Q; [left; split; [assumption|reflexivity]|].
  case_gtb c 0.4%Q; [right; left; repeat split; assumption|].
  case_gtb c 0.2%Q; [right; right; left; repeat split; assumption|].
  right; right; right. split; [assumption|reflexivity].
Qed.

Lemma correlationConclusion_text (c : Q) :
  match type (correlationConclusion c) with
  | strong => text (correlationConclusion c)
      = Lit "There is a STRONG positive correlation between Q1 and Q2 responses."
  | moderate => text (correlationConclusion c)
      = Lit "There is a MODERATE positive correlation between Q1 and Q2 responses."
  | weak => text (correlationConclusion c)
      = Lit "There is a WEAK positive correlation between Q1 and Q2 responses."
  | none => text (correlationConclusion c)
      = Lit "There is NO significant correlation between Q1 and Q2 responses."
  | _ => False
  end.
Proof.
  unfold correlationConclusion.
  destruct (JS.gtb c 0.7); [reflexivity|].
  destruct (JS.gtb c 0.4); [reflexivity|].
  destruct (JS.gtb c 0.2); reflexivity.
Qed.

Lemma reportsCorrelation_iff ct k t :
  reportsCorrelation ct k t
  <-> type (correlationConclusion (correlation_coefficient ct)) = k
      /\ text (correlationConclusion (correlation_coefficient ct)) = Lit t.
Proof.
  unfold reportsCorrelation. rewrite reportedCorrelation_some. split.
  - intros (c & Hc & Hk & Ht). injection Hc as <-. now split.
  - intros [Hk Ht]. eexists. repeat split; eassumption.
Qed.

(** C2. For every cross-tabulation result, [getStatConclusion] reports a
    STRONG positive correlation exactly when the coefficient is above 0.7,
    a MODERATE one exactly when it is above 0.4 and at most 0.7, a WEAK
    one exactly when it is above 0.2 and at most 0.4, and no significant
    correlation otherwise. *)
Theorem getStatConclusion_correlation_thresholds (ct : CrossTabulation) :
  let c := correlation_coefficient ct in
  (reportsCorrelation ct strong
     "There is a STRONG positive correlation between Q1 and Q2 responses."
   <-> (0.7 < c)%Q)
  /\ (reportsCorrelation ct moderate
       "There is a MODERATE positive correlation between Q1 and Q2 responses."
     <-> (0.4 < c <= 0.7)%Q)
  /\ (reportsCorrelation ct weak
       "There is a WEAK positive correlation between Q1 and Q2 responses."
     <-> (0.2 < c <= 0.4)%Q)
  /\ (reportsCorrelation ct none
       "There is NO significant correlation between Q1 and Q2 responses."
     <-> (c <= 0.2)%Q).
Proof.
  intro c. subst c.
  rewrite !reportsCorrelation_iff.
  pose proof (correlationConclusion_text (correlation_coefficient ct)) as Ht.
  destruct (correlationConclusion_cases (correlation_coefficient ct))
    as [[H Hk] | [[[H H'] Hk] | [[[H H'] Hk] | [H Hk]]]];
    rewrite Hk in *;
    repeat split; intros; try assumption; try discriminate;
    repeat match goal with
           | K : _ /\ _ |- _ => destruct K
           end;
    try discriminate; try order_clash.
Qed.

(** The theorem at a coefficient of 0.55: the page reports a MODERATE
    correlation. *)
Lemma getStatConclusion_correlation_thresholds_witness :
  reportsCorrelation
    (mkCrossTabulation 10 5 5 30 20 10 10 60 0.55 12.5 0.0004)
    moderate
    "There is a MODERATE positive correlation between Q1 and Q2 responses.".
Proof.
  apply (proj1 (proj2 (getStatConclusion_correlation_thresholds
           (mkCrossTabulation 10 5 5 30 20 10 10 60 0.55 12.5 0.0004)))).
  split; vm_compute; congruence.
Defined.

End DemographicsFacts.

Section SignificanceFacts.

Import Demographics.

Ltac split_ands :=
  repeat match goal with
         | K : _ /\ _ |- _ => destruct K
         end.

Ltac settle_tier :=
  split; intros; split_ands; try discriminate; try order_clash;
  first [ assumption | reflexivity
        | split; first [ assumption | reflexivity ] ].

Ltac tiers3 := split; [|split]; settle_tier.
Ltac tiers4 := split; [|split; [|split]]; settle_tier.

Lemma reportsSignificance_iff ct k t :
  reportsSignificance ct k t
  <-> type (significanceConclusion (p_value ct)) = k
      /\ text (significanceConclusion (p_value ct)) = Lit t.
Proof.
  unfold reportsSignificance. rewrite reportedSignificance_some. split.
  - intros (c & Hc & Hk & Ht). injection Hc as <-. now split.
  - intros [Hk Ht]. eexists. repeat split; eassumption.
Qed.

(** The four tiers of the badge of the engine. *)
Lemma significance_badge_tiers (p : Q) (s : bool) :
  let b := StatisticsEngine.significance_badge p s in
  (StatisticsEngine.badge_label b = "highly significant"
     /\ StatisticsEngine.badge_symbol b = "***" <-> (p < 0.001)%Q)
  /\ (StatisticsEngine.badge_label b = "very significant"
        /\ StatisticsEngine.badge_symbol b = "**" <-> (0.001 <= p < 0.01)%Q)
  /\ (StatisticsEngine.badge_label b = "significant"
        /\ StatisticsEngine.badge_symbol b = "*" <-> (0.01 <= p < 0.05)%Q)
  /\ (StatisticsEngine.badge_label b = "not significant"
        /\ StatisticsEngine.badge_symbol b = "ns" <-> (0.05 <= p)%Q).
Proof.
  unfold StatisticsEngine.significance_badge.
  case_ltb p 0.001%Q; [cbn; tiers4|].
  case_ltb p 0.01%Q; [cbn; tiers4|].
  case_ltb p 0.05%Q; cbn; tiers4.
Qed.

(** The three tiers of the wording of [getStatConclusion]. *)
Lemma getStatConclusion_significance_tiers (ct : CrossTabulation) :
  let p := p_value ct in
  (reportsSignificance ct significant
     "This relationship is HIGHLY statistically significant (p < 0.001)."
   <-> (p < 0.001)%Q)
  /\ (reportsSignificance ct significant
        "This relationship is statistically significant (p < 0.05)."
      <-> (0.001 <= p < 0.05)%Q)
  /\ (reportsSignificance ct not_significant
        "This relationship is NOT statistically significant."
      <-> (0.05 <= p)%Q).
Proof.
  intro p. subst p. rewrite !reportsSignificance_iff.
  unfold significanceConclusion.
  case_ltb (p_value ct) 0.001%Q; [cbn; tiers3|].
  case_ltb (p_value ct) 0.05%Q; cbn; tiers3.
Qed.

(** The three colours of [getSignificanceColor]. *)
Lemma getSignificanceColor_tiers (s : bool) (p : Q) :
  (Compare.getSignificanceColor s p = "text-emerald-400" <-> (p < 0.01)%Q)
  /\ (Compare.getSignificanceColor s p = "text-blue-400"
      <-> (0.01 <= p)%Q /\ s = true)
  /\ (Compare.getSignificanceColor s p = "text-white/40"
      <-> (0.01 <= p)%Q /\ s = false).
Proof.
  unfold Compare.getSignificanceColor.
  case_ltb p 0.01%Q; [tiers3|].
  destruct s; tiers3.
Qed.

(** C1, as the code has it. The badge of the engine has the four tiers
    (below 0.001 highly significant, below 0.01 very significant, below
    0.05 significant, otherwise not significant); the wording of
    [getStatConclusion] has three (below 0.001 HIGHLY statistically
    significant, below 0.05 statistically significant, otherwise NOT
    statistically significant), so a p-value from 0.001 up to 0.01 gets
    the plain wording of the 0.05 tier; [getSignificanceColor] has three
    colours (below 0.01, otherwise significant, otherwise neither). *)
Theorem significance_tiers_as_implemented :
  (forall (p : Q) (s : bool),
      let b := StatisticsEngine.significance_badge p s in
      (StatisticsEngine.badge_label b = "highly significant"
         /\ StatisticsEngine.badge_symbol b = "***" <-> (p < 0.001)%Q)
      /\ (StatisticsEngine.badge_label b = "very significant"
            /\ StatisticsEngine.badge_symbol b = "**" <-> (0.001 <= p < 0.01)%Q)
      /\ (StatisticsEngine.badge_label b = "significant"
            /\ StatisticsEngine.badge_symbol b = "*" <-> (0.01 <= p < 0.05)%Q)
      /\ (StatisticsEngine.badge_label b = "not significant"
            /\ StatisticsEngine.badge_symbol b = "ns" <-> (0.05 <= p)%Q))
  /\ (forall ct : CrossTabulation,
        let p := p_value ct in
        (reportsSignificance ct significant
           "This relationship is HIGHLY statistically significant (p < 0.001)."
         <-> (p < 0.001)%Q)
        /\ (reportsSignificance ct significant
              "This relationship is statistically significant (p < 0.05)."
            <-> (0.001 <= p < 0.05)%Q)
        /\ (reportsSignificance ct not_significant
              "This relationship is NOT statistically significant."
            <-> (0.05 <= p)%Q))
  /\ (forall ct : CrossTabulation,
        (0.001 <= p_value ct < 0.01)%Q ->
        reportsSignificance ct significant
          "This relationship is statistically significant (p < 0.05).")
  /\ (forall (s : bool) (p : Q),
        (Compare.getSignificanceColor s p = "text-emerald-400" <-> (p < 0.01)%Q)
        /\ (Compare.getSignificanceColor s p = "text-blue-400"
            <-> (0.01 <= p)%Q /\ s = true)
        /\ (Compare.getSignificanceColor s p = "text-white/40"
            <-> (0.01 <= p)%Q /\ s = false)).
Proof.
  split; [exact significance_badge_tiers|].
  split; [exact getStatConclusion_significance_tiers|].
  split; [|exact getSignificanceColor_tiers].
  intros ct [Hlo Hhi].
  apply (proj1 (proj2 (getStatConclusion_significance_tiers ct))).
  split; [assumption|].
  eapply Qlt_trans; [eassumption|]. reflexivity.
Qed.

(** The theorem at a p-value of 0.005: the page words it as the 0.05
    tier. *)
Lemma significance_tiers_as_implemented_witness :
  (0.001 <= 0.005 < 0.01)%Q
  /\ reportsSignificance
       (mkCrossTabulation 10 5 5 30 20 10 10 60 0.55 7.9 0.005)
       significant
       "This relationship is statistically significant (p < 0.05).".
Proof.
  assert (H : (0.001 <= 0.005 < 0.01)%Q) by (split; vm_compute; congruence).
  split; [exact H|].
  exact (proj1 (proj2 (proj2 significance_tiers_as_implemented))
           (mkCrossTabulation 10 5 5 30 20 10 10 60 0.55 7.9 0.005) H).
Defined.

(** C1 fails as stated: at the p-values 0.005 and 0.03 the badge of the
    engine distinguishes very significant from significant, while
    [getStatConclusion] words both as the 0.05 tier, with the very same
    conclusion. *)
Lemma getStatConclusion_has_no_very_significant_tier :
  let ct := mkCrossTabulation 10 5 5 30 20 10 10 60 0.55 7.9 0.005 in
  let ct' := mkCrossTabulation 10 5 5 30 20 10 10 60 0.55 4.7 0.03 in
  (0.001 <= p_value ct < 0.01)%Q
  /\ (0.01 <= p_value ct' < 0.05)%Q
  /\ StatisticsEngine.badge_label
       (StatisticsEngine.significance_badge (p_value ct) true)
     = "very significant"
  /\ StatisticsEngine.badge_label
       (StatisticsEngine.significance_badge (p_value ct') true)
     = "significant"
  /\ reportedSignificance (Some ct)
     = Some (mkConclusion significant
               (Lit "This relationship is statistically significant (p < 0.05).")
               "The observed pattern is unlikely to be due to random chance.")
  /\ reportedSignificance (Some ct) = reportedSignificance (Some ct')
  /\ ~ (forall c c' : CrossTabulation,
          (0.001 <= p_value c < 0.01)%Q -> (0.01 <= p_value c' < 0.05)%Q ->
          reportedSignificance (Some c) <> reportedSignificance (Some c')).
Proof.
  intros ct ct'.
  assert (Hp : (0.001 <= p_value ct < 0.01)%Q) by (split; vm_compute; congruence).
  assert (Hp' : (0.01 <= p_value ct' < 0.05)%Q) by (split; vm_compute; congruence).
  assert (Heq : reportedSignificance (Some ct) = reportedSignificance (Some ct'))
    by (vm_compute; reflexivity).
  repeat (split; [first [assumption | vm_compute; reflexivity]|]).
  intro H. exact (H ct ct' Hp Hp' Heq).
Qed.

End SignificanceFacts.

Section CompareFacts.

Import Compare.

Lemma truthy_nonempty (s : string) : JS.truthy s = true <-> s <> EmptyString.
Proof.
  unfold JS.truthy. rewrite negb_true_iff. apply String.eqb_neq.
Qed.

Lemma truthy_empty (s : string) : JS.truthy s = false <-> s = EmptyString.
Proof.
  unfold JS.truthy. rewrite negb_false_iff. apply String.eqb_eq.
Qed.

Lemma queryEnabled_spec (s : State) :
  queryEnabled s = true
  <-> shouldCompare s = true /\ groupA s <> EmptyString
      /\ groupB s <> EmptyString /\ groupA s <> groupB s.
Proof.
  unfold queryEnabled.
  rewrite !andb_true_iff, negb_true_iff, !truthy_nonempty, String.eqb_neq.
  tauto.
Qed.

Lemma compareDisabled_spec (s : State) :
  compareDisabled s = true
  <-> groupA s = EmptyString \/ groupB s = EmptyString \/ groupA s = groupB s.
Proof.
  unfold compareDisabled.
  rewrite !orb_true_iff, !negb_true_iff, !truthy_empty, String.eqb_eq.
  tauto.
Qed.

(** Two selectors of one group type name the same group only when the
    values are the same. *)
Lemma selector_inj (t : GroupType) (a b : string) :
  selector t a = selector t b -> a = b.
Proof.
  unfold selector.
  generalize (groupTypeName t). intro pre.
  induction pre as [|c pre IH]; cbn; intro H.
  - now injection H.
  - injection H as H. auto.
Qed.

(** A click on a disabled Compare button would change nothing. *)
Lemma handleCompare_disabled (s : State) :
  compareDisabled s = true -> handleCompare s = s.
Proof.
  intro H. apply compareDisabled_spec in H. unfold handleCompare.
  destruct (JS.truthy (groupA s) && JS.truthy (groupB s)
            && negb (String.eqb (groupA s) (groupB s)))%bool eqn:E;
    [|reflexivity].
  rewrite !andb_true_iff, negb_true_iff, !truthy_nonempty, String.eqb_neq in E.
  tauto.
Qed.

(** The guard of the query is not redundant: the flag set by a click
    survives a reload of the groups that makes the two selections equal. *)
Example shouldCompare_does_not_imply_distinct :
  let s := run [ GroupsLoaded (mkAvailableGroups ["BTech"; "MTech"] []);
                 ClickCompare;
                 GroupsLoaded (mkAvailableGroups ["PhD"; "PhD"] []) ] in
  shouldCompare s = true /\ groupA s = groupB s
  /\ compareGroupsRequest s = None.
Proof. repeat split. Qed.

Lemma reachable_run (es : list Event) : reachable (run es).
Proof.
  unfold run.
  assert (G : forall s, reachable s -> reachable (fold_left step es s)).
  { induction es as [|e es IH]; intros s Hs; cbn; [assumption|].
    apply IH. now constructor. }
  apply G. constructor.
Qed.

(** C6. In every reachable state of the comparison page a [compareGroups]
    request is issued only when both selections are non-empty and
    distinct, so its two selectors differ; the query is enabled only under
    that condition, and the Compare button is disabled exactly when a
    selection is empty or the two are equal. *)
Theorem group_never_compared_to_itself (s : State) (Hs : reachable s) :
  (forall a b : string,
      compareGroupsRequest s = Some (a, b) ->
      groupA s <> EmptyString /\ groupB s <> EmptyString
      /\ groupA s <> groupB s
      /\ a = selector (groupType s) (groupA s)
      /\ b = selector (groupType s) (groupB s)
      /\ a <> b)
  /\ (queryEnabled s = true ->
      groupA s <> EmptyString /\ groupB s <> EmptyString
      /\ groupA s <> groupB s)
  /\ (compareDisabled s = true
      <-> groupA s = EmptyString \/ groupB s = EmptyString
          \/ groupA s = groupB s)
  /\ (compareDisabled s = true -> handleCompare s = s).
Proof.
  clear Hs.
  split; [|split; [|split]].
  - intros a b H. unfold compareGroupsRequest in H.
    destruct (queryEnabled s) eqn:E; [|discriminate].
    apply queryEnabled_spec in E. destruct E as (_ & HA & HB & HAB).
    injection H as <- <-.
    repeat (split; [first [assumption | reflexivity]|]).
    intro Heq. apply HAB. exact (selector_inj _ _ _ Heq).
  - intro E. apply queryEnabled_spec in E. tauto.
  - apply compareDisabled_spec.
  - apply handleCompare_disabled.
Qed.

(** The theorem in the state reached by loading two courses and clicking
    Compare: the request names two different groups. *)
Lemma group_never_compared_to_itself_witness :
  let s := step (step initial
                   (GroupsLoaded (mkAvailableGroups ["BTech"; "MTech"] ["1st"; "2nd"])))
                ClickCompare in
  compareGroupsRequest s = Some ("course:BTech", "course:MTech")
  /\ groupA s <> groupB s.
Proof.
  intro s.
  assert (Hs : reachable s)
    by (apply reachable_step, reachable_step, reachable_initial).
  assert (Hr : compareGroupsRequest s = Some ("course:BTech", "course:MTech"))
    by reflexivity.
  split; [exact Hr|].
  exact (proj1 (proj2 (proj2
           (proj1 (group_never_compared_to_itself s Hs) _ _ Hr)))).
Defined.

End CompareFacts.

Section ExplorerPaginationFacts.

Import Explorer.
Local Open Scope Z_scope.

(** The ceiling of [t / 20] in integer arithmetic. *)
Lemma ceiling_div_pageSize (t : Z) :
  Qceiling (inject_Z t / inject_Z pageSize) = (t + 19) / 20.
Proof.
  unfold Qceiling, Qfloor, pageSize, Qdiv, Qmult, Qinv, Qopp, inject_Z. cbn.
  rewrite Z.mul_1_r.
  pose proof (Z.div_mod (- t) 20 ltac:(lia)) as H1.
  pose proof (Z.mod_pos_bound (- t) 20 ltac:(lia)) as H2.
  pose proof (Z.div_mod (t + 19) 20 ltac:(lia)) as H3.
  pose proof (Z.mod_pos_bound (t + 19) 20 ltac:(lia)) as H4.
  lia.
Qed.

(** [totalPages] is the least number of pages of 20 that hold [total]
    responses. *)
Lemma totalPages_ceiling (s : State) (r : SurveyResponseList) :
  loaded s = Some r ->
  totalPages s = Qceiling (inject_Z (total r) / inject_Z 20)
  /\ 20 * (totalPages s - 1) < total r <= 20 * totalPages s.
Proof.
  intro H. unfold totalPages. rewrite H. split; [reflexivity|].
  change (inject_Z 20) with (inject_Z pageSize).
  rewrite ceiling_div_pageSize.
  pose proof (Z.div_mod (total r + 19) 20 ltac:(lia)) as H3.
  pose proof (Z.mod_pos_bound (total r + 19) 20 ltac:(lia)) as H4.
  lia.
Qed.

Lemma totalPages_not_loaded (s : State) :
  loaded s = None -> totalPages s = 0.
Proof. intro H. unfold totalPages. now rewrite H. Qed.

(** Previous and Next keep a page number that is in range in range, and
    do not touch the number of pages. *)
Lemma navigation_keeps_page_in_range (s : State) :
  1 <= page s <= totalPages s ->
  (1 <= page (previousPage s) <= totalPages (previousPage s))
  /\ (1 <= page (nextPage s) <= totalPages (nextPage s))
  /\ totalPages (previousPage s) = totalPages s
  /\ totalPages (nextPage s) = totalPages s.
Proof.
  intro H. unfold previousPage, nextPage, totalPages in *. cbn.
  destruct (loaded s); lia.
Qed.

(** Next never leaves the range on the right, Previous never on the left,
    whatever the page was. *)
Lemma navigation_bounds (s : State) :
  page (nextPage s) <= totalPages s /\ 1 <= page (previousPage s).
Proof. unfold previousPage, nextPage. cbn. lia. Qed.

(** The chips, the search box and the Clear Filters button of the results
    bar reset the page. *)
Lemma filter_handlers_reset_page (s : State) (x : string) :
  page (toggleCourse x s) = 1
  /\ page (toggleYear x s) = 1
  /\ page (changeSearch x s) = 1
  /\ page (clearFilters s) = 1.
Proof. repeat split. Qed.

(** The Clear Filters action of the empty state changes the same three
    filters and keeps the page whatever it is. *)
Lemma clearFiltersEmptyState_page (s : State) :
  page (clearFiltersEmptyState s) = page s
  /\ searchQuery (clearFiltersEmptyState s) = searchQuery (clearFilters s)
  /\ selectedCourses (clearFiltersEmptyState s) = selectedCourses (clearFilters s)
  /\ selectedYears (clearFiltersEmptyState s) = selectedYears (clearFilters s).
Proof. repeat split. Qed.

(** C7. The claim holds for the number of pages, for Previous and Next and
    for four of the five handlers that change a filter; it fails for the
    Clear Filters action of the empty state.  On page 2 with a course
    filter and an empty page of results, that action clears the filters
    and leaves the page at 2, while the button of the results bar, in the
    same state, resets it to 1. *)
Theorem clearFiltersEmptyState_does_not_reset_page :
  let s := mkState "hostel" ["BTech"] [] 2
                   (Some (mkSurveyResponseList 25 0 0 [])) in
  emptyStateShown s = true
  /\ selectedCourses (clearFiltersEmptyState s) <> selectedCourses s
  /\ searchQuery (clearFiltersEmptyState s) <> searchQuery s
  /\ page (clearFiltersEmptyState s) = 2
  /\ page (clearFiltersEmptyState s) <> 1
  /\ page (clearFilters s) = 1.
Proof.
  cbn. repeat split; discriminate.
Qed.

End ExplorerPaginationFacts.

Section ExplorerExportFacts.

Import Explorer.




Lemma escapeQuotes_app (s t : string) :
  escapeQuotes (s ++ t) = (escapeQuotes s ++ escapeQuotes t)%string.
Proof.
  induction s as [|c s IH]; [reflexivity|].
  cbn. destruct (Ascii.eqb c "034"); cbn; now rewrite IH.
Qed.

(** A quoted field opens and closes with a double quote. *)
Lemma quoted_shape (s : string) :
  quoted s = String "034"%char (s ++ String "034"%char EmptyString).
Proof. reflexivity. Qed.




(** A page of two responses, the second with a quoted word in its comment
    and no quality record. *)
Example exportFilteredData_two_rows :
  let q := String "034"%char EmptyString in
  exportFilteredData
    (Some (mkSurveyResponseList 2 2 0
       [ mkSurveyResponse 7 "t1" "Asha" "21CS01" "BTech" "2nd" "Yes" (Some "No")
           (Some "fine") (Some (mkQualityResult 85 [] true));
         mkSurveyResponse 8 "t2" "Ravi" "21EE02" "MTech" "1st" "No" None
           (Some ("a " ++ q ++ "no" ++ q)) None ]))
  = Some ("ID,Name,Roll No,Course,Year,Q1,Q2,Quality Score,Comment" ++ newline
          ++ "7," ++ q ++ "Asha" ++ q ++ ",21CS01," ++ q ++ "BTech" ++ q
          ++ ",2nd,Yes,No,85," ++ q ++ "fine" ++ q ++ newline
          ++ "8," ++ q ++ "Ravi" ++ q ++ ",21EE02," ++ q ++ "MTech" ++ q
          ++ ",1st,No,,0," ++ q ++ "a " ++ q ++ q ++ "no" ++ q ++ q ++ q).
Proof. reflexivity. Qed.

End ExplorerExportFacts.

Section QualityFacts.

Import Quality.
Local Open Scope Z_scope.

Lemma fixed1_proper (x y : Q) :
  (x == y)%Q -> Double.fixed1 x = Double.fixed1 y.
Proof.
  intro H. unfold Double.fixed1, Double.roundTenths, JS.ltb.
  now rewrite H.
Qed.

(** Rounding to tenths is off by at most a twentieth, ties going up. *)
Lemma roundTenths_close (x : Q) :
  (x * 10 - (1 # 2) < inject_Z (Double.roundTenths x))%Q
  /\ (inject_Z (Double.roundTenths x) <= x * 10 + (1 # 2))%Q.
Proof.
  unfold Double.roundTenths.
  pose proof (Qfloor_le (x * 10 + (1 # 2))) as Hle.
  pose proof (Qlt_floor (x * 10 + (1 # 2))) as Hlt.
  split; [|exact Hle].
  rewrite inject_Z_plus in Hlt.
  apply (Qplus_lt_l _ _ 1).
  eapply Qle_lt_trans; [|exact Hlt].
  ring_simplify. apply Qle_refl.
Qed.

Lemma hasPoint_app_point (a b : string) :
  hasPoint (a ++ String "."%char b) = true.
Proof.
  induction a as [|c a IH]; [reflexivity|].
  cbn. rewrite IH. apply orb_true_r.
Qed.

Lemma fixed1_hasPoint (x : Q) : hasPoint (Double.fixed1 x) = true.
Proof.
  unfold Double.fixed1.
  destruct (JS.ltb x 0); cbn [String.append].
  - cbn [hasPoint]. change (Ascii.eqb "-" ".") with false.
    cbn [orb]. apply hasPoint_app_point.
  - apply hasPoint_app_point.
Qed.

(** The text of a number that is not negative has no sign. *)
Lemma fixed1_nonneg (x : Q) :
  (0 <= x)%Q ->
  let n := Double.roundTenths x in
  Double.fixed1 x
  = (JS.string_of_Z (n / 10) ++ "." ++ JS.string_of_Z (n mod 10))%string.
Proof.
  intros Hx n. unfold Double.fixed1.
  assert (E : JS.ltb x 0 = false) by now apply ltb_ge.
  rewrite E. cbn [String.append].
  unfold Double.roundTenths. rewrite (Qabs_pos x Hx). reflexivity.
Qed.

(** The tenths of a number between 0 and 100. *)
Lemma roundTenths_range (x : Q) :
  (0 <= x)%Q -> (x <= 100)%Q -> 0 <= Double.roundTenths x <= 1000.
Proof.
  intros H0 H1. unfold Double.roundTenths. split.
  - rewrite <- (Qfloor_Z 0). apply Qfloor_resp_le.
    change (inject_Z 0) with 0%Q. lra.
  - assert (K : (inject_Z (Qfloor (x * 10 + (1 # 2))) < inject_Z 1001)%Q).
    { eapply Qle_lt_trans; [apply Qfloor_le|].
      change (inject_Z 1001) with 1001%Q. lra. }
    rewrite <- Zlt_Qlt in K. lia.
Qed.

Section Percent.

Local Open Scope Q_scope.

Variables count total : Z.
Hypothesis count_range : (0 <= count <= total)%Z.
Hypothesis total_range : (0 < total <= 2 ^ 53)%Z.

Local Abbreviation share := (inject_Z count / inject_Z total).
Local Abbreviation quotient :=
  (Double.nearest
     (Double.nearest (inject_Z count) / Double.nearest (inject_Z total))).
Local Abbreviation product :=
  (Double.nearest (quotient * Double.nearest (inject_Z 100))).

Lemma percent_exact_unit : 0 <= share <= 1.
Proof.
  assert (Ht : 0 < inject_Z total) by (rewrite <- (Zlt_Qlt 0); lia).
  split.
  - apply Qle_shift_div_l; [exact Ht|].
    rewrite Qmult_0_l, <- (Zle_Qle 0). lia.
  - apply Qle_shift_div_r; [exact Ht|].
    rewrite Qmult_1_l, <- Zle_Qle. lia.
Qed.

Lemma percent_quotient_eq : quotient == Double.nearest share.
Proof.
  apply nearest_proper.
  rewrite !nearest_Z by lia. reflexivity.
Qed.

Lemma percent_product_eq : product == Double.nearest (quotient * 100).
Proof.
  apply nearest_proper.
  rewrite (nearest_Z 100) by (cbn; lia). reflexivity.
Qed.

Lemma percent_quotient_unit : 0 <= quotient <= 1.
Proof.
  rewrite percent_quotient_eq.
  apply (nearest_between 0 1); [cbn; lia|cbn; lia| |];
    apply percent_exact_unit.
Qed.

Lemma percent_product_range : 0 <= product <= 100.
Proof.
  rewrite percent_product_eq.
  pose proof percent_quotient_unit as [H0 H1].
  apply (nearest_between 0 100); [cbn; lia|cbn; lia| |].
  - change (inject_Z 0) with 0. nra.
  - change (inject_Z 100) with 100. nra.
Qed.

(** The quotient of the counts as a double. *)
Lemma percent_div :
  exists divisor : Q,
    Double.ofZ total = Double.Finite divisor /\ ~ divisor == 0
    /\ Double.div (Double.ofZ count) (Double.ofZ total)
       = Double.Finite quotient.
Proof.
  exists (Double.nearest (inject_Z total)).
  assert (Et : Double.nearest (inject_Z total) == inject_Z total)
    by (apply nearest_Z; lia).
  assert (Ec : Double.nearest (inject_Z count) == inject_Z count)
    by (apply nearest_Z; lia).
  assert (Hne : ~ Double.nearest (inject_Z total) == 0).
  { rewrite Et. apply inject_Z_nonzero. lia. }
  split; [apply ofZ_safe; lia|]. split; [exact Hne|].
  rewrite (ofZ_safe total), (ofZ_safe count) by lia.
  unfold Double.div.
  destruct (Qeq_bool (Double.nearest (inject_Z total)) 0) eqn:E.
  { apply Qeq_bool_iff in E. contradiction. }
  pose proof percent_exact_unit as [H0 H1].
  apply (round_between 0 1); [cbn; lia|cbn; lia| |];
    rewrite Ec, Et; assumption.
Qed.

Lemma percent_mul :
  Double.mul (Double.Finite quotient) (Double.ofZ 100)
  = Double.Finite product.
Proof.
  rewrite (ofZ_safe 100) by (cbn; lia). unfold Double.mul.
  pose proof percent_quotient_unit as [H0 H1].
  assert (E : Double.nearest (inject_Z 100) == 100)
    by (apply (nearest_Z 100); cbn; lia).
  apply (round_between 0 100); [cbn; lia|cbn; lia| |]; rewrite E.
  - change (inject_Z 0) with 0. nra.
  - change (inject_Z 100) with 100. nra.
Qed.

(** The two roundings move the percentage by less than [2^-45]. *)
Lemma percent_error : Qabs (product - 100 * share) <= Double.pow2 (-45).
Proof.
  pose proof percent_exact_unit as [He0 He1].
  pose proof percent_quotient_unit as [Hq0 Hq1].
  pose proof (pow2_pos (-53)) as Heps.
  assert (E1 : Qabs (quotient - share) <= Double.pow2 (-53)).
  { rewrite percent_quotient_eq.
    destruct (Z.eq_dec count 0) as [Z0|NZ].
    - assert (Ex : share == 0) by (rewrite Z0; reflexivity).
      rewrite (nearest_proper _ _ Ex), Ex.
      rewrite (nearest_zero 0) by reflexivity.
      assert (K : 0 - 0 == 0) by ring. rewrite K. cbn. lra.
    - assert (Hlow : Double.pow2 (-53) <= share).
      { assert (Ht : 0 < inject_Z total) by (rewrite <- (Zlt_Qlt 0); lia).
        apply Qle_shift_div_l; [exact Ht|].
        assert (K : inject_Z total <= inject_Z (2 ^ 53))
          by (rewrite <- Zle_Qle; lia).
        assert (K1 : 1 <= inject_Z count)
          by (change 1 with (inject_Z 1); rewrite <- Zle_Qle; lia).
        assert (K2 : Double.pow2 (-53) * inject_Z (2 ^ 53) == 1)
          by reflexivity.
        nra. }
      assert (Hn : Double.pow2 (-1022) <= Qabs share).
      { rewrite Qabs_pos by lra.
        eapply Qle_trans; [|exact Hlow]. apply pow2_le. lia. }
      eapply Qle_trans; [apply (nearest_relative_error share Hn)|].
      rewrite Qabs_pos by lra. nra. }
  assert (E2 : Qabs (product - quotient * 100) <= 100 * Double.pow2 (-53)).
  { rewrite percent_product_eq.
    destruct (Qeq_dec quotient 0) as [Z0|NZ].
    - assert (Ex : quotient * 100 == 0) by (rewrite Z0; ring).
      rewrite (nearest_proper _ _ Ex), Ex.
      rewrite (nearest_zero 0) by reflexivity.
      assert (K : 0 - 0 == 0) by ring. rewrite K. cbn. lra.
    - assert (Hlow : Double.pow2 (-53) <= quotient).
      { rewrite percent_quotient_eq.
        assert (Hr : Double.representable (Double.pow2 (-53))).
        { exists 1%Z, (-53)%Z. split; [reflexivity|]. split; [lia|].
          ring. }
        rewrite <- (nearest_fixed _ Hr). apply nearest_mono.
        destruct (Z.eq_dec count 0) as [Z0|NZ'].
        - exfalso. apply NZ. rewrite percent_quotient_eq.
          assert (Ex : share == 0) by (rewrite Z0; reflexivity).
          rewrite (nearest_proper _ _ Ex). now rewrite (nearest_zero 0).
        - assert (Ht : 0 < inject_Z total) by (rewrite <- (Zlt_Qlt 0); lia).
          apply Qle_shift_div_l; [exact Ht|].
          assert (K : inject_Z total <= inject_Z (2 ^ 53))
            by (rewrite <- Zle_Qle; lia).
          assert (K1 : 1 <= inject_Z count)
            by (change 1 with (inject_Z 1); rewrite <- Zle_Qle; lia).
          assert (K2 : Double.pow2 (-53) * inject_Z (2 ^ 53) == 1)
            by reflexivity.
          nra. }
      assert (Hn : Double.pow2 (-1022) <= Qabs (quotient * 100)).
      { rewrite Qabs_pos by nra.
        assert (Double.pow2 (-1022) <= Double.pow2 (-53))
          by (apply pow2_le; lia).
        nra. }
      eapply Qle_trans; [apply (nearest_relative_error _ Hn)|].
      rewrite Qabs_pos by nra. nra. }
  assert (E : product - 100 * share
              == (product - quotient * 100) + 100 * (quotient - share))
    by ring.
  rewrite E.
  eapply Qle_trans; [apply Qabs_triangle|].
  rewrite Qabs_Qmult, (Qabs_pos 100) by discriminate.
  assert (K : 200 * Double.pow2 (-53) <= Double.pow2 (-45)).
  { unfold Qle. cbn. lia. }
  lra.
Qed.

End Percent.

(** The [percent] field of a band of a share of the total. *)
Lemma percentOf_spec (count total : Z) :
  0 <= count <= total -> 0 < total <= 2 ^ 53 ->
  exists divisor quotient product : Q,
    Double.ofZ total = Double.Finite divisor
    /\ ~ (divisor == 0)%Q
    /\ Double.div (Double.ofZ count) (Double.ofZ total)
       = Double.Finite quotient
    /\ Double.isNearest (inject_Z count / inject_Z total) quotient
    /\ Double.mul (Double.Finite quotient) (Double.ofZ 100)
       = Double.Finite product
    /\ Double.isNearest (quotient * 100) product
    /\ percentOf count total = PercentText (Double.fixed1 product)
    /\ (0 <= product <= 100)%Q
    /\ (Qabs (product - 100 * inject_Z count / inject_Z total)
        <= Double.pow2 (-45))%Q
    /\ let n := Double.roundTenths product in
       Double.fixed1 product
       = (JS.string_of_Z (n / 10) ++ "." ++ JS.string_of_Z (n mod 10))%string
       /\ 0 <= n <= 1000
       /\ (Qabs (inject_Z n / 10 - 100 * inject_Z count / inject_Z total)
           <= (1 # 20) + Double.pow2 (-45))%Q.
Proof.
  intros Hc Ht.
  destruct (percent_div count total Hc Ht) as (divisor & Hd & Hnz & Hdiv).
  pose proof (percent_mul count total Hc Ht) as Hmul.
  pose proof (percent_quotient_eq count total Hc Ht) as Hq.
  pose proof (percent_product_eq count total) as Hp.
  pose proof (percent_product_range count total Hc Ht) as Hr.
  pose proof (percent_error count total Hc Ht) as He.
  cbv zeta in Hdiv, Hmul, Hq, Hp, Hr, He.
  set (quotient :=
         Double.nearest
           (Double.nearest (inject_Z count) / Double.nearest (inject_Z total)))
    in *.
  set (product := Double.nearest (quotient * Double.nearest (inject_Z 100)))
    in *.
  exists divisor, quotient, product.
  assert (Hexact : (100 * inject_Z count / inject_Z total
                    == 100 * (inject_Z count / inject_Z total))%Q)
    by (unfold Qdiv; ring).
  split; [exact Hd|]. split; [exact Hnz|]. split; [exact Hdiv|].
  split.
  { split.
    - apply (representable_proper _ _ (Qeq_sym _ _ Hq)).
      apply nearest_representable.
    - intros d Hrep. rewrite Hq. now apply nearest_optimal. }
  split; [exact Hmul|].
  split.
  { split.
    - apply (representable_proper _ _ (Qeq_sym _ _ Hp)).
      apply nearest_representable.
    - intros d Hrep. rewrite Hp. now apply nearest_optimal. }
  split.
  { unfold percentOf.
    destruct (Z.eqb_spec total 0) as [E|_]; [lia|].
    now rewrite Hdiv, Hmul. }
  split; [exact Hr|].
  split; [rewrite Hexact; exact He|].
  intro n. split; [apply fixed1_nonneg; apply Hr|].
  split; [apply roundTenths_range; apply Hr|].
  pose proof (roundTenths_close product) as [H1 H2]. fold n in H1, H2.
  rewrite Hexact.
  apply Qabs_Qle_condition in He. destruct He as [He1 He2].
  apply Qabs_Qle_condition.
  set (e := Double.pow2 (-45)) in *.
  set (x := (100 * (inject_Z count / inject_Z total))%Q) in *.
  assert (Hn : (inject_Z n / 10 == inject_Z n * (1 # 10))%Q) by field.
  rewrite Hn.
  clearbody e x n. clear - H1 H2 He1 He2. split; lra.
Qed.

(** C8, as the page computes it.  For counts that are not negative and a
    total of at most [2^53], each of the four bands shows the number 0 when
    the sum of the four counts is zero; otherwise the divisor is not zero,
    the quotient of the count by the total and its product with 100 are
    finite doubles, each the double nearest to the exact result, and the
    band shows the product with one decimal, a text between 0.0 and 100.0
    that differs from [100 * count / total] by at most a twentieth and
    [2^-45].  The text is never NaN nor an infinity. *)
Theorem qualityData_percent_total (quality : option QualityDistribution) :
  0 <= countOf excellent quality ->
  0 <= countOf good quality ->
  0 <= countOf acceptable quality ->
  0 <= countOf poor quality ->
  totalResponses quality <= 2 ^ 53 ->
  let total := totalResponses quality in
  map value (qualityData quality)
  = [ countOf excellent quality; countOf good quality;
      countOf acceptable quality; countOf poor quality ]
  /\ total = countOf excellent quality + countOf good quality
             + countOf acceptable quality + countOf poor quality
  /\ Forall (fun b : Band =>
               (total = 0 -> percent b = PercentNumber 0)
               /\ (total <> 0 ->
                   exists divisor quotient product : Q,
                     Double.ofZ total = Double.Finite divisor
                     /\ ~ (divisor == 0)%Q
                     /\ Double.div (Double.ofZ (value b)) (Double.ofZ total)
                        = Double.Finite quotient
                     /\ Double.isNearest
                          (inject_Z (value b) / inject_Z total) quotient
                     /\ Double.mul (Double.Finite quotient) (Double.ofZ 100)
                        = Double.Finite product
                     /\ Double.isNearest (quotient * 100) product
                     /\ percent b = PercentText (Double.fixed1 product)
                     /\ (0 <= product <= 100)%Q
                     /\ (Qabs (product
                               - 100 * inject_Z (value b) / inject_Z total)
                         <= Double.pow2 (-45))%Q
                     /\ let n := Double.roundTenths product in
                        Double.fixed1 product
                        = (JS.string_of_Z (n / 10) ++ "."
                           ++ JS.string_of_Z (n mod 10))%string
                        /\ 0 <= n <= 1000
                        /\ (Qabs (inject_Z n / 10
                                  - 100 * inject_Z (value b) / inject_Z total)
                            <= (1 # 20) + Double.pow2 (-45))%Q)
               /\ percent b <> PercentText "NaN"
               /\ percent b <> PercentText "Infinity"
               /\ percent b <> PercentText "-Infinity")
            (qualityData quality).
Proof.
  intros He Hg Ha Hp Hmax total.
  assert (Htotal : total = countOf excellent quality + countOf good quality
                           + countOf acceptable quality + countOf poor quality).
  { subst total. destruct quality; reflexivity. }
  split; [reflexivity|].
  split; [exact Htotal|].
  unfold qualityData. fold total.
  assert (Hband : forall (l c : string) (count : Z),
             0 <= count <= total ->
             let b := mkBand l count c (percentOf count total) in
             (total = 0 -> percent b = PercentNumber 0)
             /\ (total <> 0 ->
                 exists divisor quotient product : Q,
                   Double.ofZ total = Double.Finite divisor
                   /\ ~ (divisor == 0)%Q
                   /\ Double.div (Double.ofZ (value b)) (Double.ofZ total)
                      = Double.Finite quotient
                   /\ Double.isNearest
                        (inject_Z (value b) / inject_Z total) quotient
                   /\ Double.mul (Double.Finite quotient) (Double.ofZ 100)
                      = Double.Finite product
                   /\ Double.isNearest (quotient * 100) product
                   /\ percent b = PercentText (Double.fixed1 product)
                   /\ (0 <= product <= 100)%Q
                   /\ (Qabs (product
                             - 100 * inject_Z (value b) / inject_Z total)
                       <= Double.pow2 (-45))%Q
                   /\ let n := Double.roundTenths product in
                      Double.fixed1 product
                      = (JS.string_of_Z (n / 10) ++ "."
                         ++ JS.string_of_Z (n mod 10))%string
                      /\ 0 <= n <= 1000
                      /\ (Qabs (inject_Z n / 10
                                - 100 * inject_Z (value b) / inject_Z total)
                          <= (1 # 20) + Double.pow2 (-45))%Q)
             /\ percent b <> PercentText "NaN"
             /\ percent b <> PercentText "Infinity"
             /\ percent b <> PercentText "-Infinity").
  { intros l c count Hcount b. subst b. cbn [percent value].
    destruct (Z.eq_dec total 0) as [E|N].
    - assert (Hz : percentOf count total = PercentNumber 0)
        by (unfold percentOf; rewrite E; reflexivity).
      split; [intros _; exact Hz|]. split; [contradiction|].
      rewrite Hz. repeat split; discriminate.
    - split; [contradiction|].
      destruct (percentOf_spec count total Hcount ltac:(lia))
        as (divisor & quotient & product & H).
      split; [intros _; exists divisor, quotient, product; exact H|].
      destruct H as (_ & _ & _ & _ & _ & _ & Hpct & _).
      rewrite Hpct.
      repeat split; intro K; injection K as K;
        pose proof (fixed1_hasPoint product) as P; rewrite K in P;
        discriminate P. }
  repeat (apply Forall_cons; [apply Hband; lia|]). apply Forall_nil.
Qed.

(** The theorem on 1, 1, 1 and 0 responses: the first band is a third of
    the total, shown as 33.3. *)
Lemma qualityData_percent_total_witness :
  let quality := Some (mkQualityDistribution 1 1 1 0 []) in
  (0 <= countOf excellent quality /\ 0 <= countOf good quality
   /\ 0 <= countOf acceptable quality /\ 0 <= countOf poor quality
   /\ totalResponses quality <= 2 ^ 53)
  /\ totalResponses quality <> 0
  /\ option_map percent (nth_error (qualityData quality) 0)
     = Some (PercentText "33.3").
Proof.
  intro quality.
  assert (H1 : 0 <= countOf excellent quality) by (vm_compute; discriminate).
  assert (H2 : 0 <= countOf good quality) by (vm_compute; discriminate).
  assert (H3 : 0 <= countOf acceptable quality) by (vm_compute; discriminate).
  assert (H4 : 0 <= countOf poor quality) by (vm_compute; discriminate).
  assert (H5 : totalResponses quality <= 2 ^ 53) by (vm_compute; discriminate).
  assert (Hne : totalResponses quality <> 0) by (vm_compute; discriminate).
  split; [repeat split; assumption|].
  split; [exact Hne|].
  pose proof (qualityData_percent_total quality H1 H2 H3 H4 H5) as (_ & _ & H).
  unfold qualityData in H |- *. cbv zeta in H |- *.
  apply Forall_inv in H. destruct H as (_ & H & _).
  destruct (H Hne)
    as (divisor & quotient & product & _ & _ & Hdiv & _ & Hmul & _ & Hpct & _).
  cbn [nth_error option_map]. apply f_equal.
  etransitivity; [exact Hpct|]. apply f_equal.
  cbn [value] in Hdiv.
  vm_compute in Hdiv. injection Hdiv as <-.
  vm_compute in Hmul. injection Hmul as <-.
  vm_compute. reflexivity.
Defined.

(** With no responses in any band the four percents are the number 0. *)
Example qualityData_all_zero :
  map percent (qualityData (Some (mkQualityDistribution 0 0 0 0 [])))
  = [ PercentNumber 0; PercentNumber 0; PercentNumber 0; PercentNumber 0 ]
  /\ map percent (qualityData None)
     = [ PercentNumber 0; PercentNumber 0; PercentNumber 0; PercentNumber 0 ].
Proof. split; reflexivity. Qed.

(** C8 fails as stated.  For 23 responses of 80 the exact percentage is
    28.75, which rounded to one decimal is 28.8; the double of
    [23 / 80 * 100] lies below 28.75 and the page shows 28.7.  So the
    displayed percent is not always [100 * count / total] rounded to one
    decimal. *)
Lemma qualityData_percent_is_not_the_exact_quotient_rounded :
  let quality := Some (mkQualityDistribution 23 57 0 0 []) in
  totalResponses quality = 80
  /\ (100 * inject_Z 23 / inject_Z 80 == 28.75)%Q
  /\ Double.fixed1 (100 * inject_Z 23 / inject_Z 80) = "28.8"
  /\ Double.mul (Double.div (Double.ofZ 23) (Double.ofZ 80)) (Double.ofZ 100)
     = Double.Finite (8092405580431359 # 281474976710656)
  /\ (8092405580431359 # 281474976710656 < 28.75)%Q
  /\ option_map percent (nth_error (qualityData quality) 0)
     = Some (PercentText "28.7")
  /\ ~ (forall q : option QualityDistribution,
          totalResponses q <> 0 ->
          Forall (fun b : Band =>
                    percent b
                    = PercentText
                        (Double.fixed1
                           (100 * inject_Z (value b)
                            / inject_Z (totalResponses q))))
                 (qualityData q)).
Proof.
  intro quality.
  assert (Hshown : option_map percent (nth_error (qualityData quality) 0)
                   = Some (PercentText "28.7")) by (vm_compute; reflexivity).
  split; [reflexivity|].
  split; [reflexivity|].
  split; [vm_compute; reflexivity|].
  split; [vm_compute; reflexivity|].
  split; [reflexivity|].
  split; [exact Hshown|].
  intro H. specialize (H quality ltac:(vm_compute; discriminate)).
  apply Forall_inv in H. vm_compute in H. discriminate H.
Qed.

End QualityFacts.

Section WordCloudFacts.

Import WordCloud.
Local Open Scope Z_scope.
Local Open Scope list_scope.

(** *** The sort *)

Lemma insertSorted_perm (x : WordCloudWord) (l : list WordCloudWord) :
  Permutation (insertSorted x l) (x :: l).
Proof.
  induction l as [|y l IH]; cbn; [apply Permutation_refl|].
  destruct (0 <? compareCount x y).
  - eapply perm_trans; [apply perm_skip, IH | apply perm_swap].
  - apply Permutation_refl.
Qed.

Lemma sortedByCount_perm (l : list WordCloudWord) :
  Permutation (sortedByCount l) l.
Proof.
  induction l as [|x l IH]; cbn; [constructor|].
  eapply perm_trans; [apply insertSorted_perm|]. now apply perm_skip.
Qed.

Lemma insertSorted_sorted (x : WordCloudWord) (l : list WordCloudWord) :
  StronglySorted countGe l -> StronglySorted countGe (insertSorted x l).
Proof.
  induction l as [|y l IH]; intro H; cbn.
  - constructor; constructor.
  - apply StronglySorted_inv in H. destruct H as [Hl Hy].
    unfold compareCount.
    destruct (Z.ltb_spec 0 (count y - count x)) as [E|E].
    + constructor; [now apply IH|].
      eapply Permutation_Forall;
        [apply Permutation_sym, insertSorted_perm|].
      constructor; [unfold countGe; lia | exact Hy].
    + constructor; [now constructor|].
      constructor; [unfold countGe; lia|].
      eapply Forall_impl; [|exact Hy].
      unfold countGe. intros a Ha. lia.
Qed.

Lemma sortedByCount_sorted (l : list WordCloudWord) :
  StronglySorted countGe (sortedByCount l).
Proof.
  induction l as [|x l IH]; cbn; [constructor|].
  now apply insertSorted_sorted.
Qed.

(** *** Prefixes of a sorted list *)

Lemma StronglySorted_app_inv (l1 l2 : list WordCloudWord) :
  StronglySorted countGe (l1 ++ l2) ->
  StronglySorted countGe l1
  /\ Forall (fun kept => Forall (countGe kept) l2) l1.
Proof.
  induction l1 as [|a l1 IH]; cbn; intro H.
  - split; constructor.
  - apply StronglySorted_inv in H. destruct H as [Hs Ha].
    destruct (IH Hs) as [H1 H2].
    apply Forall_app in Ha. destruct Ha as [Ha1 Ha2].
    split; constructor; assumption.
Qed.

Lemma sliceFromStart_firstn (stop : Z) (a : list WordCloudWord) :
  0 <= stop -> sliceFromStart stop a = firstn (Z.to_nat stop) a.
Proof.
  intro H. unfold sliceFromStart.
  destruct (Z.ltb_spec stop 0); [lia|reflexivity].
Qed.

Lemma firstn_length_Z (stop : Z) (a : list WordCloudWord) :
  0 <= stop -> Z.of_nat (List.length (firstn (Z.to_nat stop) a)) <= stop.
Proof.
  intro H. rewrite length_firstn. lia.
Qed.

(** *** The store *)

Lemma nth_store_app (st : Store) (a : list WordCloudWord) :
  nth (List.length st) (st ++ [a]) [] = a.
Proof.
  rewrite app_nth2 by lia. now rewrite Nat.sub_diag.
Qed.

Lemma update_store_last (st : Store) (a b : list WordCloudWord) :
  update (List.length st) b (st ++ [a]) = (st ++ [b])%list.
Proof.
  induction st as [|x st IH]; cbn; [reflexivity|]. now rewrite IH.
Qed.

(** The store after [[...words].sort(...).slice(0, maxWords)]: the input
    cells as they were, then the sorted copy, then the slice. *)
Lemma topWords_run (st : Store) (r : Ref) (maxWords : Z) :
  let sorted := sortedByCount (nth r st []) in
  topWords r maxWords st
  = (sliceFromStart maxWords sorted,
     (st ++ [sorted] ++ [sliceFromStart maxWords sorted])%list).
Proof.
  unfold topWords, bind, spread, sort, slice, bind, read, alloc, write, ret.
  cbn zeta.
  rewrite !nth_store_app, update_store_last, nth_store_app.
  rewrite <- app_assoc. reflexivity.
Qed.

Lemma processedWords_run (st : Store) (r : Ref)
      (maxWords minFontSize maxFontSize : Z) (colors : list string) :
  nth r st [] <> [] ->
  let sorted := sliceFromStart maxWords (sortedByCount (nth r st [])) in
  processedWords (Some r) maxWords minFontSize maxFontSize colors st
  = (match sorted with
     | [] => []
     | first :: _ =>
         mapi (processWord minFontSize maxFontSize colors
                           (count (last sorted first))
                           (rangeOf (count first) (count (last sorted first))))
              0 sorted
     end,
     st ++ [sortedByCount (nth r st [])] ++ [sorted]).
Proof.
  intros Hne sorted.
  unfold processedWords, bind at 1, read at 1.
  destruct (nth r st []) as [|w ws] eqn:E; [contradiction|].
  unfold bind, spread, sort, slice, bind, read, alloc, write, ret.
  cbn zeta. rewrite E.
  rewrite !nth_store_app, update_store_last, nth_store_app.
  fold sorted. rewrite <- app_assoc.
  destruct sorted; reflexivity.
Qed.

(** *** Font sizes *)

(** [maxCount - minCount || 1] is a finite number that is not zero: the
    difference of the counts, or 1 when they are equal. *)
Lemma rangeOf_spec (maxCount minCount : Z) :
  0 <= minCount <= maxCount -> maxCount <= 2 ^ 53 ->
  exists range : Q,
    rangeOf maxCount minCount = Double.Finite range
    /\ (0 < range)%Q
    /\ (inject_Z (maxCount - minCount) <= range)%Q
    /\ (maxCount <> minCount -> (range == inject_Z (maxCount - minCount))%Q)
    /\ (maxCount = minCount -> (range == 1)%Q).
Proof.
  intros Hc Hmax.
  destruct (sub_ofZ maxCount minCount) as (q & Eq & Kq); [lia|lia|lia|].
  destruct (ofZ_exact 1) as (q1 & E1 & K1); [cbn; lia|].
  unfold rangeOf, Double.or. rewrite Eq, E1. unfold Double.truthy.
  destruct (Qeq_bool q 0) eqn:E; cbn [negb].
  - apply Qeq_bool_iff in E. rewrite Kq in E.
    assert (Hz : maxCount - minCount = 0).
    { apply (inject_Z_injective (maxCount - minCount) 0). exact E. }
    exists q1. split; [reflexivity|]. rewrite K1, Hz.
    split; [reflexivity|]. split; [discriminate|].
    split; [intro N; lia|intros _; reflexivity].
  - apply Qeq_bool_neq in E.
    assert (Hnz : maxCount - minCount <> 0).
    { intro Z0. apply E. rewrite Kq, Z0. reflexivity. }
    exists q. split; [reflexivity|]. rewrite Kq.
    split; [rewrite <- (Zlt_Qlt 0); lia|].
    split; [apply Qle_refl|].
    split; [intros _; reflexivity|intro Z0; lia].
Qed.

(** Without the guard equal counts would give NaN. *)
Lemma unguarded_range_NaN (c : Z) :
  0 <= c <= 2 ^ 53 ->
  Double.div (Double.sub (Double.ofZ c) (Double.ofZ c))
             (Double.sub (Double.ofZ c) (Double.ofZ c))
  = Double.NaN.
Proof.
  intro Hc.
  destruct (sub_ofZ c c) as (q & Eq & Kq); [lia|lia|lia|].
  rewrite Eq. unfold Double.div.
  assert (E : Qeq_bool q 0 = true).
  { apply Qeq_bool_iff. rewrite Kq, Z.sub_diag. reflexivity. }
  now rewrite E.
Qed.

Section FontSize.

Variables minFontSize maxFontSize minCount : Z.
Variable range : Q.
Hypothesis font_range : 0 <= minFontSize <= maxFontSize.
Hypothesis font_safe : maxFontSize <= 2 ^ 53.
Hypothesis minCount_range : 0 <= minCount <= 2 ^ 53.
Hypothesis range_pos : (0 < range)%Q.

Lemma normalized_value (w : WordCloudWord) :
  minCount <= count w <= 2 ^ 53 ->
  (inject_Z (count w - minCount) <= range)%Q ->
  exists n : Q,
    normalized w minCount (Double.Finite range) = Double.Finite n
    /\ (n == Double.nearest (inject_Z (count w - minCount) / range))%Q
    /\ (0 <= n <= 1)%Q.
Proof.
  intros Hc Hr.
  destruct (sub_ofZ (count w) minCount) as (a & Ea & Ka); [lia|lia|lia|].
  unfold normalized. rewrite Ea.
  assert (Ha0 : (0 <= a)%Q) by (rewrite Ka, <- (Zle_Qle 0); lia).
  assert (Har : (a <= range)%Q) by now rewrite Ka.
  destruct (div_between 0 1 a range) as (n & En & Kn & Hn).
  - cbn; lia.
  - cbn; lia.
  - intro Z0. rewrite Z0 in range_pos. discriminate range_pos.
  - apply Qle_shift_div_l; [exact range_pos|].
    change (inject_Z 0) with 0%Q. lra.
  - apply Qle_shift_div_r; [exact range_pos|].
    change (inject_Z 1) with 1%Q. lra.
  - exists n. split; [exact En|]. split; [|exact Hn].
    rewrite Kn. apply nearest_proper. now rewrite Ka.
Qed.

(** The font size of a word: [Math.round] of a number between the two
    font sizes, which is the sum and the product of the source with every
    operation rounded to a double. *)
Lemma processWord_fontSize_value (colors : list string) (index : nat)
      (w : WordCloudWord) :
  minCount <= count w <= 2 ^ 53 ->
  (inject_Z (count w - minCount) <= range)%Q ->
  exists s : Q,
    fontSize (processWord minFontSize maxFontSize colors minCount
                          (Double.Finite range) index w)
    = Double.Finite (inject_Z (Qfloor (s + (1 # 2))))
    /\ (s == Double.nearest
               (inject_Z minFontSize
                + Double.nearest
                    (Double.nearest (inject_Z (count w - minCount) / range)
                     * inject_Z (maxFontSize - minFontSize))))%Q
    /\ (inject_Z minFontSize <= s <= inject_Z maxFontSize)%Q.
Proof.
  intros Hc Hr.
  destruct (normalized_value w Hc Hr) as (n & En & Kn & Hn0 & Hn1).
  destruct (sub_ofZ maxFontSize minFontSize) as (d & Ed & Kd); [lia|lia|lia|].
  destruct (ofZ_exact minFontSize) as (f & Ef & Kf); [lia|].
  assert (Hd0 : (0 <= d)%Q) by (rewrite Kd, <- (Zle_Qle 0); lia).
  destruct (mul_between 0 (maxFontSize - minFontSize) n d)
    as (u & Eu & Ku & Hu0 & Hu1).
  - cbn; lia.
  - lia.
  - change (inject_Z 0) with 0%Q. nra.
  - rewrite <- Kd. nra.
  - assert (Hsum : (inject_Z maxFontSize
                    == inject_Z minFontSize
                       + inject_Z (maxFontSize - minFontSize))%Q).
    { rewrite <- inject_Z_plus. apply inject_Z_injective.
      now replace (minFontSize + (maxFontSize - minFontSize)) with maxFontSize
        by lia. }
    change (inject_Z 0) with 0%Q in Hu0.
    destruct (add_between minFontSize maxFontSize f u)
      as (s & Es & Ks & Hs).
    + lia.
    + lia.
    + rewrite Kf. lra.
    + rewrite Kf, Hsum. lra.
    + exists s. unfold processWord. cbn [fontSize].
      rewrite En, Ed, Eu, Ef, Es. cbn [Double.mathRound].
      split; [reflexivity|]. split; [|exact Hs].
      rewrite Ks. apply nearest_proper. rewrite Kf, Ku.
      apply Qplus_comp; [reflexivity|].
      apply nearest_proper. now rewrite Kn, Kd.
Qed.

Lemma processWord_fontSize (colors : list string) (index : nat)
      (w : WordCloudWord) :
  minCount <= count w <= 2 ^ 53 ->
  (inject_Z (count w - minCount) <= range)%Q ->
  exists size : Z,
    fontSize (processWord minFontSize maxFontSize colors minCount
                          (Double.Finite range) index w)
    = Double.Finite (inject_Z size)
    /\ minFontSize <= size <= maxFontSize.
Proof.
  intros Hc Hr.
  destruct (processWord_fontSize_value colors index w Hc Hr)
    as (s & Es & _ & Hs0 & Hs1).
  exists (Qfloor (s + (1 # 2))). split; [exact Es|].
  now apply mathRound_between.
Qed.

(** A word with the smallest count gets the smallest font. *)
Lemma processWord_fontSize_min (colors : list string) (index : nat)
      (w : WordCloudWord) :
  count w = minCount ->
  fontSize (processWord minFontSize maxFontSize colors minCount
                        (Double.Finite range) index w)
  = Double.Finite (inject_Z minFontSize).
Proof.
  intro Hc.
  destruct (processWord_fontSize_value colors index w) as (s & Es & Ks & _).
  - lia.
  - rewrite Hc, Z.sub_diag. change (inject_Z 0) with 0%Q. lra.
  - rewrite Es. do 2 apply f_equal.
    assert (E : (s == inject_Z minFontSize)%Q).
    { rewrite Ks, Hc, Z.sub_diag.
      assert (E0 : (inject_Z 0 / range == 0)%Q).
      { change (inject_Z 0) with 0%Q. unfold Qdiv. ring. }
      rewrite E0, (nearest_zero 0) by reflexivity.
      assert (E1 : (0 * inject_Z (maxFontSize - minFontSize) == 0)%Q) by ring.
      rewrite E1, (nearest_zero 0) by reflexivity.
      assert (E2 : (inject_Z minFontSize + 0 == inject_Z minFontSize)%Q)
        by ring.
      rewrite E2. apply nearest_Z. lia. }
    rewrite (Qfloor_comp _ (inject_Z minFontSize + (1 # 2))%Q)
      by (rewrite E; reflexivity).
    pose proof (mathRound_between minFontSize minFontSize
                  (inject_Z minFontSize)) as K.
    specialize (K (Qle_refl _) (Qle_refl _)). lia.
Qed.

End FontSize.

Lemma mapi_base (f : nat -> WordCloudWord -> ProcessedWord)
      (l : list WordCloudWord) :
  (forall i w, base (f i w) = w) ->
  forall i, map base (mapi f i l) = l.
Proof.
  intro Hf. induction l as [|x l IH]; intro i; cbn; [reflexivity|].
  now rewrite Hf, IH.
Qed.

Lemma mapi_Forall (P : ProcessedWord -> Prop)
      (f : nat -> WordCloudWord -> ProcessedWord) (l : list WordCloudWord) :
  (forall i w, In w l -> P (f i w)) ->
  forall i, Forall P (mapi f i l).
Proof.
  induction l as [|x l IH]; intros Hf i; cbn; constructor.
  - apply Hf. now left.
  - apply IH. intros j w Hw. apply Hf. now right.
Qed.

Lemma last_nonempty_default (l : list WordCloudWord) (a d d' : WordCloudWord) :
  last (a :: l) d = last (a :: l) d'.
Proof.
  revert a. induction l as [|b l IH]; intro a; [reflexivity|].
  change (last (b :: l) d = last (b :: l) d'). apply IH.
Qed.

(** In a list sorted by decreasing count every count lies between the
    count of the last element and the count of the first. *)
Lemma sorted_counts_between (first : WordCloudWord) (l : list WordCloudWord) :
  StronglySorted countGe (first :: l) ->
  forall w, In w (first :: l) ->
            count (last (first :: l) first) <= count w <= count first.
Proof.
  revert first. induction l as [|y l IH]; intros first Hs w Hw.
  - destruct Hw as [<-|[]]. cbn. lia.
  - apply StronglySorted_inv in Hs. destruct Hs as [Hs Hall].
    change (last (first :: y :: l) first) with (last (y :: l) first).
    rewrite (last_nonempty_default l y first y).
    assert (Hy : countGe first y) by (inversion Hall; assumption).
    destruct Hw as [<-|Hw].
    + split; [|lia].
      pose proof (IH y Hs y (or_introl eq_refl)) as [H1 _].
      unfold countGe in Hy. lia.
    + pose proof (IH y Hs w Hw) as [H1 H2].
      unfold countGe in Hy. lia.
Qed.

Lemma nonempty_cell_in_store (st : Store) (r : Ref) :
  nth r st [] <> [] -> (r < List.length st)%nat.
Proof.
  intro H. destruct (Nat.lt_ge_cases r (List.length st)) as [Hlt|Hge];
    [exact Hlt|].
  exfalso. apply H. now apply nth_overflow.
Qed.

Lemma In_firstn (n : nat) (l : list WordCloudWord) (w : WordCloudWord) :
  In w (firstn n l) -> In w l.
Proof.
  intro H. rewrite <- (firstn_skipn n l). apply in_or_app. now left.
Qed.

Lemma last_In_cons (a d : WordCloudWord) (l : list WordCloudWord) :
  In (last (a :: l) d) (a :: l).
Proof.
  revert a. induction l as [|b l IH]; intro a; [now left|].
  right. change (last (a :: b :: l) d) with (last (b :: l) d). apply IH.
Qed.

(** C9. For a non-empty input word list, a number of words that is not
    negative and font sizes with [minFontSize <= maxFontSize],
    [processedWords] has at most [maxWords] entries; they are the first
    [maxWords] words of the input sorted by non-increasing count, so they
    are in that order, they come from the input and no dropped word has a
    larger count than a kept one; the sort works on a copy, every array
    that was in the store, the input among them, is as before.  For counts
    and font sizes between 0 and [2^53] every font size is a finite
    integer between [minFontSize] and [maxFontSize]: the divisor [range]
    is a finite number above zero, the difference of the largest and the
    smallest count, or 1 when all counts are equal; then every word gets
    [minFontSize], where the difference itself as divisor would give
    NaN. *)
Theorem processedWords_top_sorted_bounded
        (st : Store) (r : Ref)
        (maxWords minFontSize maxFontSize : Z) (colors : list string) :
  nth r st [] <> [] ->
  0 <= maxWords ->
  minFontSize <= maxFontSize ->
  let words := nth r st [] in
  let result :=
    processedWords (Some r) maxWords minFontSize maxFontSize colors st in
  let out := fst result in
  let st' := snd result in
  Z.of_nat (List.length out) <= maxWords
  /\ map base out = firstn (Z.to_nat maxWords) (sortedByCount words)
  /\ StronglySorted countGe (map base out)
  /\ (exists dropped : list WordCloudWord,
        Permutation (map base out ++ dropped) words
        /\ Forall (fun kept => Forall (countGe kept) dropped) (map base out))
  /\ (forall i : nat, (i < List.length st)%nat -> nth i st' [] = nth i st [])
  /\ nth r st' [] = words
  /\ (Forall (fun w => 0 <= count w <= 2 ^ 53) words ->
      0 <= minFontSize -> maxFontSize <= 2 ^ 53 ->
      Forall (fun p => exists size : Z,
                         fontSize p = Double.Finite (inject_Z size)
                         /\ minFontSize <= size <= maxFontSize) out
      /\ forall (first : WordCloudWord) (rest : list WordCloudWord),
           map base out = first :: rest ->
           let maxCount := count first in
           let minCount := count (last (first :: rest) first) in
           exists range : Q,
             rangeOf maxCount minCount = Double.Finite range
             /\ (0 < range)%Q
             /\ (maxCount <> minCount ->
                 (range == inject_Z (maxCount - minCount))%Q)
             /\ (maxCount = minCount ->
                 (range == 1)%Q
                 /\ Forall (fun p =>
                              fontSize p = Double.Finite (inject_Z minFontSize)
                              /\ Double.div
                                   (Double.sub (Double.ofZ (count (base p)))
                                               (Double.ofZ minCount))
                                   (Double.sub (Double.ofZ maxCount)
                                               (Double.ofZ minCount))
                                 = Double.NaN) out)).
Proof.
  intros Hne Hmax Hfont words result out st'.
  subst out st' result.
  rewrite (processedWords_run st r maxWords minFontSize maxFontSize colors Hne).
  cbn [fst snd]. fold words.
  rewrite (sliceFromStart_firstn maxWords (sortedByCount words) Hmax).
  set (n := Z.to_nat maxWords).
  set (sorted := firstn n (sortedByCount words)).
  pose proof (sortedByCount_sorted words) as Hsorted.
  rewrite <- (firstn_skipn n (sortedByCount words)) in Hsorted.
  fold sorted in Hsorted.
  apply StronglySorted_app_inv in Hsorted. destruct Hsorted as [Hs Hdrop].
  assert (Hfrom : forall w, In w sorted -> In w words).
  { intros w Hw. apply (Permutation_in w (sortedByCount_perm words)).
    now apply (In_firstn n). }
  assert (Hbase :
            map base
                (match sorted with
                 | [] => []
                 | first :: _ =>
                     mapi (processWord minFontSize maxFontSize colors
                             (count (last sorted first))
                             (rangeOf (count first) (count (last sorted first))))
                          0 sorted
                 end) = sorted).
  { destruct sorted as [|first rest] eqn:E; [reflexivity|].
    apply mapi_base. reflexivity. }
  assert (Hstore : forall i : nat,
             (i < List.length st)%nat ->
             nth i (st ++ [sortedByCount words] ++ [sorted]) [] = nth i st []).
  { intros i Hi. now apply app_nth1. }
  split; [|split; [|split; [|split; [|split; [|split]]]]].
  - rewrite <- (length_map base), Hbase. subst sorted n.
    now apply firstn_length_Z.
  - exact Hbase.
  - rewrite Hbase. exact Hs.
  - exists (skipn n (sortedByCount words)). rewrite Hbase. split.
    + subst sorted. rewrite firstn_skipn. apply sortedByCount_perm.
    + exact Hdrop.
  - exact Hstore.
  - apply Hstore. now apply nonempty_cell_in_store.
  - intros Hsafe Hmin0 HmaxS. rewrite Hbase.
    rewrite Forall_forall in Hsafe.
    destruct sorted as [|first rest] eqn:E.
    { split; [constructor|]. intros first rest K. discriminate K. }
    pose proof (sorted_counts_between first rest Hs) as Hbetween.
    pose proof (Hbetween first (or_introl eq_refl)) as [Hmm _].
    set (minCount := count (last (first :: rest) first)) in *.
    assert (Hlast : 0 <= minCount <= 2 ^ 53).
    { apply Hsafe, Hfrom. apply last_In_cons. }
    assert (Hfirst : 0 <= count first <= 2 ^ 53).
    { apply Hsafe, Hfrom. now left. }
    destruct (rangeOf_spec (count first) minCount)
      as (range & Er & Hpos & Hle & Hdiff & Hsame); [lia|lia|].
    rewrite Er.
    assert (Hword : forall w, In w (first :: rest) ->
                              minCount <= count w <= 2 ^ 53
                              /\ (inject_Z (count w - minCount) <= range)%Q).
    { intros w Hw. destruct (Hbetween w Hw) as [H1 H2].
      pose proof (Hsafe w (Hfrom w Hw)) as [_ H3].
      split; [lia|].
      eapply Qle_trans; [|exact Hle]. rewrite <- Zle_Qle. lia. }
    split.
    + apply mapi_Forall. intros i w Hw. destruct (Hword w Hw) as [H1 H2].
      apply processWord_fontSize; try assumption; lia.
    + intros first' rest' K. injection K as <- <-.
      cbv zeta. fold minCount.
      exists range. split; [exact Er|]. split; [exact Hpos|].
      split; [exact Hdiff|].
      intro Heq. split; [now apply Hsame|].
      apply mapi_Forall. intros i w Hw.
      destruct (Hbetween w Hw) as [H1 H2]. fold minCount in H1.
      assert (Hc : count w = minCount) by lia.
      split.
      * apply processWord_fontSize_min; try assumption; lia.
      * unfold processWord. cbn [base].
        rewrite Heq, Hc. now apply unguarded_range_NaN.
Qed.

(** The theorem on three words with two equal counts, keeping two: the
    kept words are the two most frequent and their font sizes are the two
    ends of the range. *)
Lemma processedWords_top_sorted_bounded_witness :
  let cloud := [ mkWord "privacy" 5 None; mkWord "parents" 9 None;
                 mkWord "trust" 5 None ] in
  let out := fst (processedWords (Some O) 2 12 36 ["#3b82f6"; "#8b5cf6"] [cloud]) in
  map (fun p => (word (base p), fontSize p)) out
  = [("parents", Double.Finite 36); ("privacy", Double.Finite 12)]
  /\ Z.of_nat (List.length out) <= 2
  /\ Forall (fun p => exists size : Z,
                        fontSize p = Double.Finite (inject_Z size)
                        /\ 12 <= size <= 36) out
  /\ nth O (snd (processedWords (Some O) 2 12 36 ["#3b82f6"; "#8b5cf6"] [cloud])) []
     = cloud.
Proof.
  intros cloud out.
  assert (Hne : nth O [cloud] [] <> []) by discriminate.
  assert (Hmax : 0 <= 2) by lia.
  assert (Hfont : 12 <= 36) by lia.
  assert (Hsafe : Forall (fun w => 0 <= count w <= 2 ^ 53) (nth O [cloud] [])).
  { repeat (apply Forall_cons; [cbn; lia|]). apply Forall_nil. }
  pose proof (processedWords_top_sorted_bounded
                [cloud] O 2 12 36 ["#3b82f6"; "#8b5cf6"] Hne Hmax Hfont)
    as (Hlen & _ & _ & _ & _ & Hin & Hfonts).
  destruct (Hfonts Hsafe ltac:(lia) ltac:(lia)) as [Hsizes _].
  split; [vm_compute; reflexivity|].
  split; [exact Hlen|].
  split; [exact Hsizes|exact Hin].
Defined.

(** With equal counts the range is replaced by 1 and every word gets the
    smallest font. *)
Example processedWords_equal_counts :
  map fontSize
      (fst (processedWords (Some O) 50 12 36 []
              [[mkWord "a" 4 None; mkWord "b" 4 None]]))
  = [Double.Finite 12; Double.Finite 12]
  /\ rangeOf 4 4 = Double.Finite 1.
Proof. split; vm_compute; reflexivity. Qed.

End WordCloudFacts.

Section StatisticsEngineFacts.

Import StatisticsEngine.
Local Open Scope R_scope.

Lemma divide_ok (x y : R) : y <> 0 -> divide x y = Ok (x / y).
Proof.
  intro H. unfold divide. destruct (Req_dec_T y 0); [contradiction|reflexivity].
Qed.

Lemma divide_by_zero (x : R) : divide x 0 = Raise ZeroDivisionError.
Proof.
  unfold divide. destruct (Req_dec_T 0 0); [reflexivity|contradiction].
Qed.

Lemma INR_nonzero (n : nat) : Nat.eqb n 0 = false -> INR n <> 0.
Proof.
  intro H. apply Nat.eqb_neq in H. now apply not_0_INR.
Qed.

Lemma INR_positive (n : nat) : Nat.eqb n 0 = false -> 0 < INR n.
Proof.
  intro H. apply Nat.eqb_neq in H. apply lt_0_INR. lia.
Qed.

Lemma clamp_sentinel :
  clamp 0 100 (0 - 100) = 0 /\ clamp 0 100 (0 + 100) = 100.
Proof.
  unfold clamp, Rmax, Rmin.
  split; repeat (destruct (Rle_dec _ _)); lra.
Qed.

(** *** [percentage_with_ci] *)

Lemma percentage_with_ci_zero_total (count : nat) :
  percentage_with_ci count 0 = Ok (with_ci 0 100 0).
Proof. reflexivity. Qed.

Lemma percentage_with_ci_total (count total : nat) :
  exists r, percentage_with_ci count total = Ok r.
Proof.
  unfold percentage_with_ci.
  destruct (Nat.eqb total 0) eqn:E; [eexists; reflexivity|].
  rewrite (divide_ok _ _ (INR_nonzero _ E)). cbn [bind].
  rewrite (divide_ok _ _ (INR_nonzero _ E)). cbn [bind].
  eexists; reflexivity.
Qed.

(** *** [two_proportion_z_test] *)

Lemma two_proportion_z_test_zero_total
      (Phi : R -> R) (count_a total_a count_b total_b : nat) :
  total_a = 0%nat \/ total_b = 0%nat ->
  two_proportion_z_test Phi count_a total_a count_b total_b = Ok no_comparison.
Proof.
  intros [-> | ->]; unfold two_proportion_z_test; cbn [Nat.eqb orb];
    [reflexivity|].
  now rewrite orb_true_r.
Qed.

(** The result for two totals that are not zero, with the divisions
    carried out. *)
Lemma two_proportion_z_test_nonzero
      (Phi : R -> R) (count_a total_a count_b total_b : nat) :
  Nat.eqb total_a 0 = false -> Nat.eqb total_b 0 = false ->
  let p_a := INR count_a / INR total_a in
  let p_b := INR count_b / INR total_b in
  let p := (INR count_a + INR count_b) / (INR total_a + INR total_b) in
  let se := sqrt (p * (1 - p) * (1 / INR total_a + 1 / INR total_b)) in
  let h := 2 * (asin (sqrt p_a) - asin (sqrt p_b)) in
  two_proportion_z_test Phi count_a total_a count_b total_b
  = if Req_dec_T se 0
    then Ok (mkComparisonStatTest 0 (two_tailed Phi 0) false false
               (100 * (p_a - p_b)) (effect_size_of h) h)
    else Ok (mkComparisonStatTest
               ((p_a - p_b) / se) (two_tailed Phi ((p_a - p_b) / se))
               (ltb (two_tailed Phi ((p_a - p_b) / se)) (5 / 100))
               (ltb (two_tailed Phi ((p_a - p_b) / se)) (1 / 100))
               (100 * (p_a - p_b)) (effect_size_of h) h).
Proof.
  intros Ha Hb p_a p_b p se h.
  unfold two_proportion_z_test. rewrite Ha, Hb. cbn [orb].
  pose proof (INR_positive _ Ha) as Pa.
  pose proof (INR_positive _ Hb) as Pb.
  rewrite (divide_ok (INR count_a) (INR total_a)) by lra. cbn [bind].
  rewrite (divide_ok (INR count_b) (INR total_b)) by lra. cbn [bind].
  rewrite (divide_ok (INR count_a + INR count_b)) by lra. cbn [bind].
  rewrite (divide_ok 1 (INR total_a)) by lra. cbn [bind].
  rewrite (divide_ok 1 (INR total_b)) by lra. cbn [bind].
  fold p_a p_b p. fold se. fold h.
  destruct (Req_dec_T se 0) as [E|E]; [reflexivity|].
  rewrite (divide_ok _ _ E). reflexivity.
Qed.

Lemma two_proportion_z_test_total
      (Phi : R -> R) (count_a total_a count_b total_b : nat) :
  exists r, two_proportion_z_test Phi count_a total_a count_b total_b = Ok r.
Proof.
  destruct (Nat.eqb total_a 0) eqn:Ha;
    [ apply Nat.eqb_eq in Ha; eexists;
      apply two_proportion_z_test_zero_total; now left |].
  destruct (Nat.eqb total_b 0) eqn:Hb;
    [ apply Nat.eqb_eq in Hb; eexists;
      apply two_proportion_z_test_zero_total; now right |].
  rewrite (two_proportion_z_test_nonzero Phi _ _ _ _ Ha Hb).
  destruct (Req_dec_T _ 0); eexists; reflexivity.
Qed.

Lemma two_tailed_opp (Phi : R -> R) (z : R) :
  two_tailed Phi (- z) = two_tailed Phi z.
Proof. unfold two_tailed. now rewrite Rabs_Ropp. Qed.

(** C5. [two_proportion_z_test] is antisymmetric in its two groups: for all
    inputs both calls return, and swapping the groups negates
    [difference] and leaves the magnitude of [z_statistic] and [p_value]
    as they are. *)
Theorem two_proportion_z_test_antisymmetric
        (Phi : R -> R) (count_a total_a count_b total_b : nat) :
  exists r r' : ComparisonStatTest,
    two_proportion_z_test Phi count_a total_a count_b total_b = Ok r
    /\ two_proportion_z_test Phi count_b total_b count_a total_a = Ok r'
    /\ difference r' = - difference r
    /\ Rabs (z_statistic r') = Rabs (z_statistic r)
    /\ p_value r' = p_value r.
Proof.
  destruct (Nat.eqb total_a 0) eqn:Ha.
  { apply Nat.eqb_eq in Ha. exists no_comparison, no_comparison.
    rewrite !two_proportion_z_test_zero_total by tauto.
    cbn. repeat split; try reflexivity. lra. }
  destruct (Nat.eqb total_b 0) eqn:Hb.
  { apply Nat.eqb_eq in Hb. exists no_comparison, no_comparison.
    rewrite !two_proportion_z_test_zero_total by tauto.
    cbn. repeat split; try reflexivity. lra. }
  rewrite (two_proportion_z_test_nonzero Phi _ _ _ _ Ha Hb).
  rewrite (two_proportion_z_test_nonzero Phi _ _ _ _ Hb Ha).
  cbv zeta.
  set (p_a := INR count_a / INR total_a).
  set (p_b := INR count_b / INR total_b).
  rewrite (Rplus_comm (INR count_b) (INR count_a)).
  rewrite (Rplus_comm (INR total_b) (INR total_a)).
  rewrite (Rplus_comm (1 / INR total_b) (1 / INR total_a)).
  set (se := sqrt _).
  destruct (Req_dec_T se 0) as [E|E].
  - eexists. eexists. split; [reflexivity|]. split; [reflexivity|].
    cbn. split; [lra|]. split; reflexivity.
  - eexists. eexists. split; [reflexivity|]. split; [reflexivity|].
    cbn.
    assert (Hz : (p_b - p_a) / se = - ((p_a - p_b) / se))
      by (unfold Rdiv; ring).
    rewrite Hz. split; [lra|].
    split; [apply Rabs_Ropp | apply two_tailed_opp].
Qed.

(** The test of the spec, 5 of 10 against 5 of 10: no difference and no
    significance, whatever the distribution function. *)
Example two_proportion_z_test_equal_groups (Phi : R -> R) :
  exists r, two_proportion_z_test Phi 5 10 5 10 = Ok r
            /\ difference r = 0 /\ z_statistic r = 0.
Proof.
  rewrite (two_proportion_z_test_nonzero Phi 5 10 5 10) by reflexivity.
  cbv zeta. destruct (Req_dec_T _ 0).
  - eexists. split; [reflexivity|]. cbn [difference z_statistic].
    split; lra.
  - eexists. split; [reflexivity|]. cbn [difference z_statistic].
    split; [lra|]. unfold Rdiv. ring.
Qed.

(** *** [chi_square_2x2] and [sample_adequacy] *)

Ltac positive :=
  repeat first [ assumption
               | apply Rdiv_lt_0_compat
               | apply Rinv_0_lt_compat
               | apply Rmult_lt_0_compat
               | apply sqrt_lt_R0 ].

Ltac nonzero := apply Rgt_not_eq, Rlt_gt; positive.

Lemma chi_square_2x2_zero_marginal
      (chi2 : R -> R) (yes_yes yes_no no_yes no_no : nat) :
  (yes_yes + yes_no = 0 \/ no_yes + no_no = 0
   \/ yes_yes + no_yes = 0 \/ yes_no + no_no = 0)%nat ->
  chi_square_2x2 chi2 yes_yes yes_no no_yes no_no
  = Ok (mkChiSquareResult 0 1 0).
Proof.
  intro H. unfold chi_square_2x2. cbv zeta.
  destruct H as [H | [H | [H | H]]]; rewrite H; cbn [Nat.eqb orb];
    rewrite ?orb_true_r; reflexivity.
Qed.

Lemma chi_square_2x2_total
      (chi2 : R -> R) (yes_yes yes_no no_yes no_no : nat) :
  exists r, chi_square_2x2 chi2 yes_yes yes_no no_yes no_no = Ok r.
Proof.
  unfold chi_square_2x2. cbv zeta.
  destruct (Nat.eqb (yes_yes + yes_no) 0 || Nat.eqb (no_yes + no_no) 0
            || Nat.eqb (yes_yes + no_yes) 0 || Nat.eqb (yes_no + no_no) 0)%bool
    eqn:E; [eexists; reflexivity|].
  apply orb_false_iff in E. destruct E as [E E4].
  apply orb_false_iff in E. destruct E as [E E3].
  apply orb_false_iff in E. destruct E as [E1 E2].
  pose proof (INR_positive _ E1) as P1.
  pose proof (INR_positive _ E2) as P2.
  pose proof (INR_positive _ E3) as P3.
  pose proof (INR_positive _ E4) as P4.
  assert (Pn : 0 < INR (yes_yes + yes_no + (no_yes + no_no)))
    by (rewrite plus_INR; lra).
  unfold chi_term.
  repeat (rewrite divide_ok by nonzero; cbn [bind]).
  eexists; reflexivity.
Qed.

Lemma sample_adequacy_total
      (detect : nat -> R) (sample_size population_estimate : nat) :
  exists r, sample_adequacy detect sample_size population_estimate = Ok r.
Proof.
  unfold sample_adequacy.
  destruct (Nat.eqb sample_size 0) eqn:E; [eexists; reflexivity|].
  rewrite (divide_ok _ _ (INR_nonzero _ E)). eexists; reflexivity.
Qed.

(** C3. The engine is total on zero totals: [percentage_with_ci(0, 0)]
    returns percentage 0 and margin of error 100, and so does every call
    with a zero total; [two_proportion_z_test] with a zero total,
    [chi_square_2x2] on the empty table and [sample_adequacy] on the empty
    sample return their sentinels (not significant, margin 100); and no
    engine function raises on any input. *)
Theorem engine_total_on_zero_totals :
  (exists r, percentage_with_ci 0 0 = Ok r
             /\ percentage r = 0 /\ margin_of_error r = 100)
  /\ (forall count : nat,
        exists r, percentage_with_ci count 0 = Ok r
                  /\ percentage r = 0 /\ margin_of_error r = 100
                  /\ ci_lower r = 0 /\ ci_upper r = 100
                  /\ sample_size r = 0%nat)
  /\ (forall (Phi : R -> R) (count_a count_b total : nat),
        exists r r',
          two_proportion_z_test Phi count_a 0 count_b total = Ok r
          /\ two_proportion_z_test Phi count_a total count_b 0 = Ok r'
          /\ significant r = false /\ highly_significant r = false
          /\ significant r' = false /\ highly_significant r' = false
          /\ z_statistic r = 0 /\ z_statistic r' = 0)
  /\ (forall chi2 : R -> R,
        exists r, chi_square_2x2 chi2 0 0 0 0 = Ok r
                  /\ correlation_coefficient r = 0
                  /\ chi_square r = 0
                  /\ ltb (chi_p_value r) (5 / 100) = false)
  /\ (forall (detect : nat -> R) (population_estimate : nat),
        exists r, sample_adequacy detect 0 population_estimate = Ok r
                  /\ worst_case_moe_percent r = 100
                  /\ adequacy r = adequacy_weak)
  /\ (forall count total : nat,
        exists r, percentage_with_ci count total = Ok r)
  /\ (forall (Phi : R -> R) (count_a total_a count_b total_b : nat),
        exists r,
          two_proportion_z_test Phi count_a total_a count_b total_b = Ok r)
  /\ (forall (chi2 : R -> R) (yes_yes yes_no no_yes no_no : nat),
        exists r, chi_square_2x2 chi2 yes_yes yes_no no_yes no_no = Ok r)
  /\ (forall (detect : nat -> R) (sample_size population_estimate : nat),
        exists r,
          sample_adequacy detect sample_size population_estimate = Ok r).
Proof.
  destruct clamp_sentinel as [Clo Chi].
  split; [eexists; split; [reflexivity|]; split; reflexivity|].
  split.
  { intro count. eexists. split; [apply percentage_with_ci_zero_total|].
    cbn. repeat split; assumption || reflexivity. }
  split.
  { intros Phi count_a count_b total. exists no_comparison, no_comparison.
    rewrite !two_proportion_z_test_zero_total by tauto.
    repeat split; reflexivity. }
  split.
  { intro chi2. eexists. split; [reflexivity|]. cbn.
    split; [reflexivity|]. split; [reflexivity|].
    unfold ltb. destruct (Rlt_dec 1 (5 / 100)); [lra|reflexivity]. }
  split.
  { intros detect pop. eexists. split; [reflexivity|]. split; reflexivity. }
  split; [exact percentage_with_ci_total|].
  split; [exact two_proportion_z_test_total|].
  split; [exact chi_square_2x2_total|exact sample_adequacy_total].
Qed.

End StatisticsEngineFacts.

Section QualityScorerFacts.

Import QualityScorer.
Local Open Scope Z_scope.

Lemma clamp_bounds (lo hi x : Z) : lo <= hi -> lo <= clamp lo hi x <= hi.
Proof. intro H. unfold clamp. lia. Qed.

(** The clamp does work: with all four penalties the score would fall
    below zero. *)
Example raw_score_below_zero :
  raw_score [too_short; keyboard_spam; all_caps; minimal] = -15.
Proof. reflexivity. Qed.

(** C4. For every comment the quality score lies between 0 and 100, for
    whatever thresholds and keyboard-pattern detector the scorer is set up
    with. *)
Theorem score_between_0_and_100
        (min_length min_words caps_min_length : nat) (validity_threshold : Z)
        (is_keyboard_spam : string -> bool) (c : string) :
  0 <= score (score_comment min_length min_words caps_min_length
                            validity_threshold is_keyboard_spam c)
    <= 100.
Proof.
  unfold score_comment. destruct (is_blank c); cbn [score]; [lia|].
  apply clamp_bounds. lia.
Qed.

(** A short comment in capitals that the detector takes for a keyboard
    pattern: the penalties add up to 115 and the score is clamped to 0. *)
Example score_comment_clamped :
  score (score_comment 10 3 3 40 (fun _ => true) "ASDF") = 0
  /\ raw_score (penalty_flags 10 3 3 (fun _ => true) "ASDF") = -15.
Proof. split; reflexivity. Qed.

End QualityScorerFacts.

